(** * Record store of the file gallery (app.js)

    A shallow embedding of the storage layer of [app.js]: the module
    variable [db], the wrappers [openDB], [addFileRecord], [getAllFiles],
    [deleteFile], the upload loop [handleFiles] and [fileToDataURL].

    The wrappers drive three browser interfaces that are no part of the
    file: an IndexedDB object store created with
    [{ keyPath: 'id', autoIncrement: true }], [FileReader.readAsDataURL]
    and the [Number] coercion.  Each of them is modelled below from the
    standard that defines it (Indexed Database API 3.0, File API, RFC 2397,
    RFC 4648, ECMAScript ToNumber); what the standards leave to the engine
    (whether a step fails, the wall clock, the Number of a string, the
    media type written for a file without type) is a field of the class
    [Engine].

    The page is one tab in which every promise is awaited before the next
    call starts, as the handlers of app.js do within one batch.  A request
    that succeeded is taken as committed: each transaction holds a single
    request and its commit is no step of its own.  Of the presentation,
    [escapeHtml], the order of the two views and the click handler of the
    data table are modelled, and of the status line whether its element
    exists; the markup, the status text, the preview and the drag-and-drop
    wiring are left out, and so is [readableFileSize], which computes on
    doubles. *)

From Stdlib Require Import ZArith NArith List String Ascii Bool Lia.
From Stdlib Require Import QArith Sorted DecimalString DecimalZ.
From Stdlib Require Import RelationClasses Permutation.
From Stdlib.Strings Require Import Byte.
Import ListNotations.
Local Open Scope Z_scope.

(** ** Base64 (RFC 4648, section 4) *)

Module Base64.

Local Open Scope string_scope.
Local Open Scope Z_scope.

Definition alphabet : string :=
  "ABCDEFGHIJKLMNOPQRSTUVWXYZabcdefghijklmnopqrstuvwxyz0123456789+/".

Definition pad : ascii := "="%char.

(** The character of a 6-bit group. *)
Definition digit (n : Z) : ascii :=
  match String.get (Z.to_nat n) alphabet with
  | Some c => c
  | None => pad
  end.

(** The 6-bit group of a character of the alphabet. *)
Definition value (c : ascii) : option Z :=
  let n := Z.of_N (N_of_ascii c) in
  if (65 <=? n) && (n <=? 90) then Some (n - 65)
  else if (97 <=? n) && (n <=? 122) then Some (n - 71)
  else if (48 <=? n) && (n <=? 57) then Some (n + 4)
  else if n =? 43 then Some 62
  else if n =? 47 then Some 63
  else None.

(** A byte as a number in 0..255, and back. *)
Definition code (b : byte) : Z := Z.of_N (Byte.to_N b).
Definition octet (n : Z) : option byte := Byte.of_N (Z.to_N n).

(** Three bytes become four characters; a final group of one or two bytes
    is padded with [=]. *)
Fixpoint encode (bs : list byte) : string :=
  match bs with
  | [] => EmptyString
  | [a] =>
      let x := code a in
      String (digit (x / 4))
        (String (digit ((x mod 4) * 16))
           (String pad (String pad EmptyString)))
  | [a; b] =>
      let x := code a in
      let y := code b in
      String (digit (x / 4))
        (String (digit ((x mod 4) * 16 + y / 16))
           (String (digit ((y mod 16) * 4))
              (String pad EmptyString)))
  | a :: b :: c :: rest =>
      let x := code a in
      let y := code b in
      let z := code c in
      String (digit (x / 4))
        (String (digit ((x mod 4) * 16 + y / 16))
           (String (digit ((y mod 16) * 4 + z / 64))
              (String (digit (z mod 64)) (encode rest))))
  end.

Definition bytes1 (v1 v2 : Z) : option (list byte) :=
  match octet (v1 * 4 + v2 / 16) with
  | Some a => Some [a]
  | None => None
  end.

Definition bytes2 (v1 v2 v3 : Z) : option (list byte) :=
  match octet (v1 * 4 + v2 / 16), octet ((v2 mod 16) * 16 + v3 / 4) with
  | Some a, Some b => Some [a; b]
  | _, _ => None
  end.

Definition bytes3 (v1 v2 v3 v4 : Z) (tail : option (list byte))
  : option (list byte) :=
  match octet (v1 * 4 + v2 / 16),
        octet ((v2 mod 16) * 16 + v3 / 4),
        octet ((v3 mod 4) * 64 + v4),
        tail with
  | Some a, Some b, Some c, Some l => Some (a :: b :: c :: l)
  | _, _, _, _ => None
  end.

(** Four characters become three bytes; padding is accepted in the last
    group only. *)
Fixpoint decode (s : string) : option (list byte) :=
  match s with
  | EmptyString => Some []
  | String c1 (String c2 (String c3 (String c4 rest))) =>
      match value c1, value c2 with
      | Some v1, Some v2 =>
          if (c3 =? pad)%char then
            if (c4 =? pad)%char then
              match rest with
              | EmptyString => bytes1 v1 v2
              | _ => None
              end
            else None
          else
            match value c3 with
            | Some v3 =>
                if (c4 =? pad)%char then
                  match rest with
                  | EmptyString => bytes2 v1 v2 v3
                  | _ => None
                  end
                else
                  match value c4 with
                  | Some v4 => bytes3 v1 v2 v3 v4 (decode rest)
                  | None => None
                  end
            | None => None
            end
      | _, _ => None
      end
  | _ => None
  end.

End Base64.

(** ** Files and data URLs (File API, RFC 2397) *)

(** A [File] as the upload handlers receive it: [name], [type] and the
    byte content; [size] is the length of the content. *)
Record File := {
  file_name : string;
  file_type : string;
  file_bytes : list byte
}.

Definition file_size (f : File) : Z := Z.of_nat (List.length (file_bytes f)).

Module DataURL.

Local Open Scope string_scope.
Local Open Scope Z_scope.

Definition comma : ascii := ","%char.

(** Modelled from the spec: the result of [FileReader.readAsDataURL],
    which [fileToDataURL] resolves with.  The payload "embeds the mime type
    and base64 payload together": the File API packs the bytes as an
    RFC 2397 data URL that carries the file's [type] as media type "if it
    is available" and the content in base64.  For a file without type the
    File API writes no media type, Chromium and Gecko write
    application/octet-stream: [untyped] is what the engine writes. *)
Definition media_type (untyped : string) (f : File) : string :=
  if (file_type f =? "")%string then untyped else file_type f.

Definition readAsDataURL (untyped : string) (f : File) : string :=
  "data:" ++ media_type untyped f ++ ";base64,"
    ++ Base64.encode (file_bytes f).

Fixpoint strip_prefix (p s : string) : option string :=
  match p, s with
  | EmptyString, _ => Some s
  | String a p', String b s' =>
      if (a =? b)%char then strip_prefix p' s' else None
  | String _ _, EmptyString => None
  end.

(** Splits at the first comma. *)
Fixpoint split_comma (s : string) : option (string * string) :=
  match s with
  | EmptyString => None
  | String c s' =>
      if (c =? comma)%char then Some (EmptyString, s')
      else match split_comma s' with
           | Some (h, b) => Some (String c h, b)
           | None => None
           end
  end.

Fixpoint strip_suffix (suf s : string) : option string :=
  if (s =? suf)%string then Some EmptyString
  else match s with
       | EmptyString => None
       | String c s' =>
           match strip_suffix suf s' with
           | Some h => Some (String c h)
           | None => None
           end
       end.

Fixpoint has_comma (s : string) : bool :=
  match s with
  | EmptyString => false
  | String c s' => (c =? comma)%char || has_comma s'
  end.

(** RFC 2397: "If <mediatype> is omitted, it defaults to
    text/plain;charset=US-ASCII". *)
Definition default_mediatype : string := "text/plain;charset=US-ASCII".

(** Modelled from the spec: decoding of a payload, after RFC 2397,
    [dataurl := "data:" [ mediatype ] [ ";base64" ] "," data].  Only the
    base64 form is read: it is the only one the reader writes. *)
Definition decode (url : string) : option (string * list byte) :=
  match strip_prefix "data:" url with
  | None => None
  | Some rest =>
      match split_comma rest with
      | None => None
      | Some (header, body) =>
          match strip_suffix ";base64" header, Base64.decode body with
          | Some mediatype, Some content =>
              Some (if (mediatype =? "")%string then default_mediatype
                    else mediatype,
                    content)
          | _, _ => None
          end
      end
  end.

End DataURL.

(** ** JavaScript values and IndexedDB keys *)

(** A Number: NaN, an infinity, or a finite value (its mathematical
    value; [-0] and [+0] are the same key). *)
Inductive number :=
| NaN
| Infinity (negative : bool)
| Finite (q : Q).

(** The primitive values a caller can hand to [deleteFile]. *)
Inductive jsval :=
| JUndefined
| JNull
| JBoolean (b : bool)
| JNumber (n : number)
| JString (s : string).

(** The object literal [rec] of [addFileRecord]. *)
Record Rec := {
  name : string;
  type : string;
  size : Z;
  uploadedAt : string;
  dataURL : string
}.

(** A stored record: the store writes the generated key at the key path
    ['id'] of the value. *)
Record FileRecord := {
  id : Z;
  fields : Rec
}.

(** The object store ['files']: its records in ascending key order and
    the current number of its key generator.  (The index on ['type'] is
    never read and is left out.) *)
Record ObjectStore := {
  records : list FileRecord;
  generator : Z
}.

(** [createObjectStore(STORE_NAME, { keyPath: 'id', autoIncrement: true })]:
    no records, key generator at 1. *)
Definition createObjectStore : ObjectStore :=
  {| records := []; generator := 1 |}.

(** The largest key a key generator hands out. *)
Definition max_generated_key : Z := 2 ^ 53.

Fixpoint put_record (r : FileRecord) (l : list FileRecord) : list FileRecord :=
  match l with
  | [] => [r]
  | x :: l' => if id r <? id x then r :: l else x :: put_record r l'
  end.

Definition has_key (k : Z) (l : list FileRecord) : bool :=
  existsb (fun r => id r =? k) l.

(** Key comparison: a numeric key against the integer key of a record. *)
Definition key_is (key : number) (k : Z) : bool :=
  match key with
  | Finite q => Qeq_bool q (inject_Z k)
  | _ => false
  end.

Definition remove_key (key : number) (l : list FileRecord) : list FileRecord :=
  filter (fun r => negb (key_is key (id r))) l.

(** ** The page: module state, database, and what the engine did *)

Definition Handle := nat.

Inductive Mode := ReadOnly | ReadWrite.

Inductive Event :=
| Opened (h : Handle)                 (* indexedDB.open succeeded *)
| Transaction (h : Handle) (m : Mode) (* database.transaction(...) *)
| Added (k : Z)                       (* store.add succeeded with key k *)
| Listed                              (* store.getAll succeeded *)
| Deleted (key : number)              (* store.delete succeeded *)
| Loaded (file : string).             (* FileReader load *)

Inductive Error :=
| OpenFailure       (* req.onerror of indexedDB.open *)
| RequestFailure    (* onerror of a store request: quota, I/O, abort *)
| ReadFailure       (* reader.onerror *)
| DataError         (* the value is not a valid key *)
| ConstraintError   (* key generator exhausted, or key already stored *)
| NotFoundError     (* the object store does not exist *)
| TypeError.        (* a property of null is written *)

Record World := {
  db : option Handle;              (* let db = null *)
  database : option ObjectStore;   (* 'files-db-v1', once created *)
  opened : nat;                    (* connections opened so far *)
  tick : nat;                      (* engine steps so far *)
  trace : list Event
}.

Definition initial : World :=
  {| db := None; database := None; opened := O; tick := O; trace := [] |}.

Definition stored (w : World) : list FileRecord :=
  match database w with
  | Some os => records os
  | None => []
  end.

(** The current number of the key generator; a store still to be created
    starts at 1. *)
Definition next_key (w : World) : Z :=
  match database w with
  | Some os => generator os
  | None => 1
  end.

(** One engine step that leaves the database as it is. *)
Definition step (evs : list Event) (w : World) : World :=
  {| db := db w; database := database w; opened := opened w;
     tick := S (tick w); trace := (trace w ++ evs)%list |}.

(** An entry of the trace without an engine step. *)
Definition note (ev : Event) (w : World) : World :=
  {| db := db w; database := database w; opened := opened w;
     tick := tick w; trace := (trace w ++ [ev])%list |}.

Definition write (os : ObjectStore) (w : World) : World :=
  {| db := db w; database := Some os; opened := opened w;
     tick := tick w; trace := trace w |}.

(** ** Promises *)

Inductive Result (A : Type) :=
| Resolved (a : A)
| Rejected (e : Error).

Arguments Resolved {A} a.
Arguments Rejected {A} e.

(** A promise that is awaited: it runs on the page and settles.  What it
    did to the page stays done when it rejects. *)
Definition Promise (A : Type) := World -> Result A * World.

Definition resolve {A} (a : A) : Promise A := fun w => (Resolved a, w).

(** [p.then(k)] and [await]: a rejection skips the continuation. *)
Definition andThen {A B} (p : Promise A) (k : A -> Promise B) : Promise B :=
  fun w =>
    match p w with
    | (Resolved a, w1) => k a w1
    | (Rejected e, w1) => (Rejected e, w1)
    end.

Notation "x <- p ;; k" := (andThen p (fun x => k))
  (at level 61, p at next level, right associativity).

(** What the standards leave to the engine: whether its [n]-th step
    fails, the ISO rendering of the wall clock at that step, the Number a
    string converts to, and the media type a data URL gets for a file
    without type. *)
Class Engine := {
  fault : nat -> bool;
  clock : nat -> string;
  StringToNumber : string -> number;
  untyped_media : string
}.

Section Store.

Context `{Engine}.

(** [Number(v)] *)
Definition Number (v : jsval) : number :=
  match v with
  | JUndefined => NaN
  | JNull => Finite 0
  | JBoolean b => Finite (if b then 1 else 0)
  | JNumber n => n
  | JString s => StringToNumber s
  end.

(** [new Date().toISOString()] *)
Definition Date_toISOString : Promise string :=
  fun w => (Resolved (clock (tick w)), w).

(** [indexedDB.open(DB_NAME, 1)] with the upgrade handler of [openDB]: the
    store is created when the database is new. *)
Definition indexedDB_open : Promise Handle :=
  fun w =>
    if fault (tick w) then (Rejected OpenFailure, step [] w)
    else
      let os := match database w with
                | Some os => os
                | None => createObjectStore
                end in
      (Resolved (opened w),
       {| db := db w; database := Some os; opened := S (opened w);
          tick := S (tick w);
          trace := (trace w ++ [Opened (opened w)])%list |}).

Definition set_db (h : Handle) : Promise unit :=
  fun w =>
    (Resolved tt,
     {| db := Some h; database := database w; opened := opened w;
        tick := tick w; trace := trace w |}).

(** [database.transaction(STORE_NAME, mode)] and [tx.objectStore(STORE_NAME)] *)
Definition transaction (h : Handle) (m : Mode) : Promise unit :=
  fun w =>
    match database w with
    | None => (Rejected NotFoundError, w)
    | Some _ => (Resolved tt, note (Transaction h m) w)
    end.

(** [store.add(rec)]: the value has no ['id'], so the key comes from the
    key generator. *)
Definition store_add (v : Rec) : Promise Z :=
  fun w =>
    match database w with
    | None => (Rejected NotFoundError, w)
    | Some os =>
        let k := generator os in
        if fault (tick w) then (Rejected RequestFailure, step [] w)
        else if max_generated_key <? k
             then (Rejected ConstraintError, step [] w)
        else if has_key k (records os)
             then (Rejected ConstraintError, step [] w)
        else
          (Resolved k,
           write {| records :=
                      put_record {| id := k; fields := v |} (records os);
                    generator := k + 1 |}
                 (step [Added k] w))
    end.

(** [store.getAll()] *)
Definition store_getAll : Promise (list FileRecord) :=
  fun w =>
    match database w with
    | None => (Rejected NotFoundError, w)
    | Some os =>
        if fault (tick w) then (Rejected RequestFailure, step [] w)
        else (Resolved (records os), step [Listed] w)
    end.

(** [store.delete(key)]: NaN is no key and makes the call throw. *)
Definition store_delete (key : number) : Promise unit :=
  fun w =>
    match key with
    | NaN => (Rejected DataError, w)
    | _ =>
        match database w with
        | None => (Rejected NotFoundError, w)
        | Some os =>
            if fault (tick w) then (Rejected RequestFailure, step [] w)
            else
              (Resolved tt,
               write {| records := remove_key key (records os);
                        generator := generator os |}
                     (step [Deleted key] w))
        end
    end.

(** [reader.readAsDataURL(file)] with its [onload] and [onerror] *)
Definition FileReader_readAsDataURL (f : File) : Promise string :=
  fun w =>
    if fault (tick w) then (Rejected ReadFailure, step [] w)
    else (Resolved (DataURL.readAsDataURL untyped_media f),
          step [Loaded (file_name f)] w).

(** *** The functions of app.js *)

Definition openDB : Promise Handle :=
  fun w =>
    match db w with
    | Some h => resolve h w
    | None => (h <- indexedDB_open ;; _ <- set_db h ;; resolve h) w
    end.

Definition addFileRecord (file : File) (url : string) : Promise Z :=
  database <- openDB ;;
  _ <- transaction database ReadWrite ;;
  now <- Date_toISOString ;;
  store_add {| name := file_name file;
               type := file_type file;
               size := file_size file;
               uploadedAt := now;
               dataURL := url |}.

Definition getAllFiles : Promise (list FileRecord) :=
  database <- openDB ;;
  _ <- transaction database ReadOnly ;;
  store_getAll.

Definition deleteFile (v : jsval) : Promise unit :=
  database <- openDB ;;
  _ <- transaction database ReadWrite ;;
  store_delete (Number v).

Definition fileToDataURL (file : File) : Promise string :=
  FileReader_readAsDataURL file.

(** The [for ... of] loop of [handleFiles]. *)
Fixpoint upload_each (files : list File) : Promise unit :=
  match files with
  | [] => resolve tt
  | f :: rest =>
      url <- fileToDataURL f ;;
      _ <- addFileRecord f url ;;
      upload_each rest
  end.

(** [handleFiles(files, statusEl)] for a status element that exists: the
    writes of its text and the re-rendering started without awaiting
    leave the store alone and belong to the presentation.  With the
    status element as the caller found it: [handleFiles_status]. *)
Definition handleFiles (files : list File) : Promise unit :=
  match files with
  | [] => resolve tt
  | _ => upload_each files
  end.

(** *** Sessions: the entry points called one after another *)

Inductive Op :=
| OpenDB
| AddFileRecord (file : File) (url : string)
| GetAllFiles
| DeleteFile (v : jsval)
| HandleFiles (files : list File).

Inductive Outcome :=
| GotHandle (r : Result Handle)
| GotId (r : Result Z)
| GotFiles (r : Result (list FileRecord))
| Done (r : Result unit).

Definition perform (op : Op) (w : World) : Outcome * World :=
  match op with
  | OpenDB => let (r, w') := openDB w in (GotHandle r, w')
  | AddFileRecord f url => let (r, w') := addFileRecord f url w in (GotId r, w')
  | GetAllFiles => let (r, w') := getAllFiles w in (GotFiles r, w')
  | DeleteFile v => let (r, w') := deleteFile v w in (Done r, w')
  | HandleFiles files => let (r, w') := handleFiles files w in (Done r, w')
  end.

Fixpoint run (ops : list Op) (w : World) : list Outcome * World :=
  match ops with
  | [] => ([], w)
  | op :: rest =>
      let (o, w1) := perform op w in
      let (os, w2) := run rest w1 in
      (o :: os, w2)
  end.

Definition after (op : Op) (w : World) : World := snd (perform op w).

Definition finish (ops : list Op) (w : World) : World := snd (run ops w).



(** Whether an operation deletes the record with key [k]. *)
Definition targets (op : Op) (k : Z) : bool :=
  match op with
  | DeleteFile v => key_is (Number v) k
  | _ => false
  end.

(** The engine never fails. *)
Definition reliable : Prop := forall n : nat, fault n = false.



End Store.

(** [String(id)] of an integer id, as the data table writes it into
    [data-id] (integers below 10^21 print in decimal). *)
Definition ToString (n : Z) : string :=
  DecimalString.NilZero.string_of_int (Z.to_int n).


(** What holds of every page the functions build: a connection is only
    remembered once the store exists, and every stored key is below the
    key generator. *)
Definition world_ok (w : World) : Prop :=
  (db w <> None -> database w <> None) /\
  (forall r, In r (stored w) -> id r < next_key w).

Definition unique_ids (w : World) : Prop := NoDup (map id (stored w)).

(** The event happened on connection [h] and opened none. *)
Definition on_handle (h : Handle) (ev : Event) : Prop :=
  match ev with
  | Opened _ => False
  | Transaction h' _ => h' = h
  | _ => True
  end.

(** *** Relations between the page before and after *)

(** [R] holds across a promise, however it settles. *)
Definition across {A} (R : World -> World -> Prop) (p : Promise A) : Prop :=
  forall w, R w (snd (p w)).

Definition keeps (r : FileRecord) (w w' : World) : Prop :=
  In r (stored w) -> In r (stored w').

Definition adds_nothing (w w' : World) : Prop :=
  forall r, In r (stored w') -> In r (stored w).

Definition stays_unique (w w' : World) : Prop :=
  unique_ids w -> unique_ids w'.

Definition stays_ok (w w' : World) : Prop :=
  world_ok w -> world_ok w'.

Definition grows (w w' : World) : Prop := next_key w <= next_key w'.

Definition same_handle (h : Handle) (w w' : World) : Prop :=
  db w = Some h ->
  db w' = Some h /\ opened w' = opened w /\
  exists evs, trace w' = (trace w ++ evs)%list /\ Forall (on_handle h) evs.

(** An engine that never fails; it reads decimal integers and takes every
    other string for NaN. *)
Definition steady : Engine :=
  {| fault := fun _ => false;
     clock := fun n =>
       ("2024-01-01T00:00:00." ++ ToString (Z.of_nat n) ++ "Z")%string;
     StringToNumber := fun s =>
       match DecimalString.NilZero.int_of_string s with
       | Some d => Finite (inject_Z (Z.of_int d))
       | None => NaN
       end;
     untyped_media := "" |}.

(** The steady engine of a browser that writes application/octet-stream
    for a file without type. *)
Definition steady_octet_stream : Engine :=
  {| fault := @fault steady;
     clock := @clock steady;
     StringToNumber := @StringToNumber steady;
     untyped_media := "application/octet-stream" |}.

(** The steady engine, failing at step [n] only. *)
Definition failing_at (n : nat) : Engine :=
  {| fault := fun m => Nat.eqb m n;
     clock := @clock steady;
     StringToNumber := @StringToNumber steady;
     untyped_media := @untyped_media steady |}.

(** *** Sample files and pages *)

(** The file of the spec's scenario: "a.txt", three bytes, text/plain. *)
Definition sample_text : File :=
  {| file_name := "a.txt";
     file_type := "text/plain";
     file_bytes := ["a"%byte; "b"%byte; "c"%byte] |}.

(** A file the browser found no type for. *)
Definition sample_blob : File :=
  {| file_name := "blob";
     file_type := "";
     file_bytes := ["000"%byte; "255"%byte] |}.

(** The page after [openDB] on start-up, and after both files were
    uploaded, on the steady engine. *)
Definition opened_page : World := snd (@openDB steady initial).

Definition gallery : World :=
  snd (@handleFiles steady [sample_text; sample_blob] opened_page).


(** ** The rest of app.js: escaping and the two views *)

(** The callback of [escapeHtml]: the entity of each of the five
    characters its pattern matches (ampersand, less-than, greater-than,
    double quote, apostrophe). *)
Module Html.

Local Open Scope string_scope.

Definition quote : ascii := "034"%char.

Definition entity (m : ascii) : option string :=
  if (m =? "&")%char then Some "&amp;"
  else if (m =? "<")%char then Some "&lt;"
  else if (m =? ">")%char then Some "&gt;"
  else if (m =? quote)%char then Some "&quot;"
  else if (m =? "'")%char then Some "&#39;"
  else None.

(** [text.replace(pattern, callback)] with the global flag: every match
    is replaced, the text between matches is kept. *)
Fixpoint replace (text : string) : string :=
  match text with
  | EmptyString => EmptyString
  | String c rest =>
      match entity c with
      | Some e => e ++ replace rest
      | None => String c (replace rest)
      end
  end.

(** The characters that would start or end markup or an attribute. *)
Definition markup (c : ascii) : bool :=
  (c =? "<")%char || (c =? ">")%char || (c =? quote)%char || (c =? "'")%char.

(** Text that the pattern does not match anywhere. *)
Fixpoint plain (text : string) : bool :=
  match text with
  | EmptyString => true
  | String c rest =>
      match entity c with
      | Some _ => false
      | None => plain rest
      end
  end.

End Html.

(** [escapeHtml(text)] on a string: the empty string is falsy. *)
Definition escapeHtml (text : string) : string :=
  if (text =? "")%string then EmptyString else Html.replace text.

(** What the gallery container shows after [renderGallery]: nothing when
    the page has no [#gallery-grid], the "No files yet" paragraph, or one
    thumbnail per record in the order they were appended. *)
Inductive Gallery :=
| NoGallery
| NoFilesYet
| Thumbs (tiles : list FileRecord).

(** What the table body shows after [renderDataTable]. *)
Inductive Table :=
| NoTable
| NoRows
| Rows (rows : list FileRecord).

(** What a click on a button of the data table did. *)
Inductive Clicked :=
| FileNotFound                     (* alert('File not found') *)
| Download (href file : string)    (* a.href, a.download, a.click() *)
| Declined                         (* confirm(...) answered no *)
| Removed                          (* deleteFile(id) resolved *)
| Ignored.                         (* an action that is neither *)

(** [Array.prototype.sort] with a comparator, which is stable: it is
    modelled as the insertion sort that gives the one order a stable sort
    can give under a consistent comparator. *)
Fixpoint insert_sorted {A} (cmp : A -> A -> Z) (x : A) (l : list A) : list A :=
  match l with
  | [] => [x]
  | y :: l' => if cmp x y <=? 0 then x :: l else y :: insert_sorted cmp x l'
  end.

Definition Array_sort {A} (cmp : A -> A -> Z) (l : list A) : list A :=
  fold_right (insert_sorted cmp) [] l.

(** The integers [k], [k + 1], ... , [n] of them. *)
Fixpoint consecutive (k : Z) (n : nat) : list Z :=
  match n with
  | O => []
  | S n' => k :: consecutive (k + 1) n'
  end.

(** What an upload writes into a record, beside the id and the time. *)
Definition essence (r : FileRecord) : string * string * Z * string :=
  (name (fields r), type (fields r), size (fields r), dataURL (fields r)).

(** An event of reading: no write transaction, no insert, no delete. *)
Definition reading (ev : Event) : Prop :=
  match ev with
  | Transaction _ ReadWrite => False
  | Added _ => False
  | Deleted _ => False
  | _ => True
  end.

Definition sorted_ids (w : World) : Prop :=
  StronglySorted Z.lt (map id (stored w)).

Definition stays_sorted (w w' : World) : Prop :=
  sorted_ids w -> sorted_ids w'.

Section Views.

Context `{Engine}.

(** [new Date(s).getTime()] of an [uploadedAt]; every [uploadedAt] was
    written by [toISOString] and parses. *)
Variable Date_parse : string -> Z.

(** [renderGallery()]; [container] tells whether the page has
    [#gallery-grid].  The records are appended in the order of
    [files.reverse()]. *)
Definition renderGallery (container : bool) : Promise Gallery :=
  if container then
    files <- getAllFiles ;;
    match files with
    | [] => resolve NoFilesYet
    | _ => resolve (Thumbs (rev files))
    end
  else resolve NoGallery.

(** The comparator of [renderDataTable]:
    [new Date(b.uploadedAt) - new Date(a.uploadedAt)]. *)
Definition by_date (a b : FileRecord) : Z :=
  Date_parse (uploadedAt (fields b)) - Date_parse (uploadedAt (fields a)).

(** The order of the table: the upload time of [a] is not before that of
    [b]. *)
Definition not_older (a b : FileRecord) : Prop :=
  Date_parse (uploadedAt (fields b)) <= Date_parse (uploadedAt (fields a)).

(** [renderDataTable()] up to the rows; [tbody] tells whether the page
    has [#data-tbody]. *)
Definition renderDataTable (tbody : bool) : Promise Table :=
  if tbody then
    files <- getAllFiles ;;
    match Array_sort by_date files with
    | [] => resolve NoRows
    | rows => resolve (Rows rows)
    end
  else resolve NoTable.

(** [refreshGalleryAndData()] *)
Definition refreshGalleryAndData (container tbody : bool)
  : Promise (Gallery * Table) :=
  g <- renderGallery container ;;
  t <- renderDataTable tbody ;;
  resolve (g, t).

(** [handleFiles(files, statusEl)] as [setupUploadArea] calls it, with
    whatever [document.querySelector('#upload-status')] returned:
    [statusEl] tells whether that is an element.  An empty list returns
    before the status is touched; otherwise [statusEl.textContent = ...]
    on null throws, which rejects the function before any upload. *)
Definition handleFiles_status (statusEl : bool) (files : list File)
  : Promise unit :=
  match files with
  | [] => resolve tt
  | _ =>
      if statusEl then handleFiles files
      else fun w => (Rejected TypeError, w)
  end.

(** The click handler that [renderDataTable] attaches to the buttons of a
    row, for the button's [data-action] and [data-id]; [confirmed] is the
    answer to [confirm('Delete this file?')].  [x.id == id] compares the
    number [x.id] with the Number of the string [id].  The re-rendering it
    starts without awaiting is left to [refreshGalleryAndData]. *)
Definition onButtonClick (action data_id : string) (confirmed : bool)
  : Promise Clicked :=
  files <- getAllFiles ;;
  match find (fun x => key_is (StringToNumber data_id) (id x)) files with
  | None => resolve FileNotFound
  | Some file =>
      if (action =? "download")%string then
        resolve (Download (dataURL (fields file)) (name (fields file)))
      else if (action =? "delete")%string then
        if confirmed then
          _ <- deleteFile (JString data_id) ;;
          resolve Removed
        else resolve Declined
      else resolve Ignored
  end.

End Views.

(** The record of "a.txt" in the gallery. *)
Definition text_record : FileRecord :=
  {| id := 1;
     fields := {| name := "a.txt"; type := "text/plain"; size := 3;
                  uploadedAt := "2024-01-01T00:00:00.2Z";
                  dataURL := "data:text/plain;base64,YWJj" |} |}.

(** The record of the file without type in the gallery. *)
Definition blob_record : FileRecord :=
  {| id := 2;
     fields := {| name := "blob"; type := ""; size := 2;
                  uploadedAt := "2024-01-01T00:00:00.4Z";
                  dataURL := "data:;base64,AP8=" |} |}.

(** Reads back the step that the steady clock wrote after the seconds. *)
Definition steady_Date_parse (s : string) : Z :=
  match DecimalString.NilZero.int_of_string
          (substring 20 (String.length s - 21) s) with
  | Some d => Z.of_int d
  | None => 0
  end.

(** * Facts *)

(** ** Base64 *)

Section Base64Facts.

Local Open Scope string_scope.
Local Open Scope Z_scope.

Example encode_Man : Base64.encode ["M"%byte; "a"%byte; "n"%byte] = "TWFu".
Proof. reflexivity. Qed.

Example encode_Ma : Base64.encode ["M"%byte; "a"%byte] = "TWE=".
Proof. reflexivity. Qed.

Example decode_M : Base64.decode "TQ==" = Some ["M"%byte].
Proof. reflexivity. Qed.

Lemma value_digit (n : Z) :
  0 <= n < 64 -> Base64.value (Base64.digit n) = Some n.
Proof.
  intros Hn.
  destruct n as [|p|p]; [reflexivity| |lia].
  do 6 (destruct p as [p|p|]; try reflexivity); lia.
Qed.

Lemma digit_not_pad (n : Z) :
  0 <= n < 64 -> (Base64.digit n =? Base64.pad)%char = false.
Proof.
  intros Hn.
  destruct n as [|p|p]; [reflexivity| |lia].
  do 6 (destruct p as [p|p|]; try reflexivity); lia.
Qed.

Lemma code_bound (b : byte) : 0 <= Base64.code b < 256.
Proof. unfold Base64.code. pose proof (Byte.to_N_bounded b). lia. Qed.

Lemma octet_code (b : byte) : Base64.octet (Base64.code b) = Some b.
Proof.
  unfold Base64.octet, Base64.code. rewrite N2Z.id. apply Byte.of_to_N.
Qed.

Ltac sextets := intros; Z.div_mod_to_equations; lia.

(** Regrouping the 6-bit groups into bytes gives the bytes back. *)
Lemma regroup_first (x y : Z) :
  0 <= x < 256 -> 0 <= y < 256 ->
  (x / 4) * 4 + ((x mod 4) * 16 + y / 16) / 16 = x.
Proof. sextets. Qed.

Lemma regroup_second (x y z : Z) :
  0 <= x < 256 -> 0 <= y < 256 -> 0 <= z < 256 ->
  (((x mod 4) * 16 + y / 16) mod 16) * 16 + ((y mod 16) * 4 + z / 64) / 4 = y.
Proof. sextets. Qed.

Lemma regroup_third (y z : Z) :
  0 <= y < 256 -> 0 <= z < 256 ->
  (((y mod 16) * 4 + z / 64) mod 4) * 64 + z mod 64 = z.
Proof. sextets. Qed.

Lemma sextet1 (x : Z) : 0 <= x < 256 -> 0 <= x / 4 < 64.
Proof. sextets. Qed.

Lemma sextet2 (x y : Z) :
  0 <= x < 256 -> 0 <= y < 256 -> 0 <= (x mod 4) * 16 + y / 16 < 64.
Proof. sextets. Qed.

Lemma sextet3 (y z : Z) :
  0 <= y < 256 -> 0 <= z < 256 -> 0 <= (y mod 16) * 4 + z / 64 < 64.
Proof. sextets. Qed.

Lemma sextet4 (z : Z) : 0 <= z < 256 -> 0 <= z mod 64 < 64.
Proof. sextets. Qed.

(** One-step equations of the decoder on the three shapes the encoder
    produces. *)
Lemma decode_group3 (n1 n2 n3 n4 : Z) (rest : string) :
  0 <= n1 < 64 -> 0 <= n2 < 64 -> 0 <= n3 < 64 -> 0 <= n4 < 64 ->
  Base64.decode (String (Base64.digit n1) (String (Base64.digit n2)
            (String (Base64.digit n3) (String (Base64.digit n4) rest))))
  = Base64.bytes3 n1 n2 n3 n4 (Base64.decode rest).
Proof.
  intros H1 H2 H3 H4.
  cbn [Base64.decode].
  rewrite !value_digit by assumption.
  rewrite !digit_not_pad by assumption.
  reflexivity.
Qed.

Lemma decode_group2 (n1 n2 n3 : Z) :
  0 <= n1 < 64 -> 0 <= n2 < 64 -> 0 <= n3 < 64 ->
  Base64.decode (String (Base64.digit n1) (String (Base64.digit n2)
            (String (Base64.digit n3) (String Base64.pad EmptyString))))
  = Base64.bytes2 n1 n2 n3.
Proof.
  intros H1 H2 H3.
  cbn [Base64.decode].
  rewrite !value_digit by assumption.
  rewrite !digit_not_pad by assumption.
  reflexivity.
Qed.

Lemma decode_group1 (n1 n2 : Z) :
  0 <= n1 < 64 -> 0 <= n2 < 64 ->
  Base64.decode (String (Base64.digit n1) (String (Base64.digit n2)
            (String Base64.pad (String Base64.pad EmptyString))))
  = Base64.bytes1 n1 n2.
Proof.
  intros H1 H2.
  cbn [Base64.decode].
  rewrite !value_digit by assumption.
  reflexivity.
Qed.

(** Induction three bytes at a time, the way [Base64.encode] recurses. *)
Lemma list_ind3 (A : Type) (P : list A -> Prop) :
  P [] -> (forall a, P [a]) -> (forall a b, P [a; b]) ->
  (forall a b c l, P l -> P (a :: b :: c :: l)) ->
  forall l, P l.
Proof.
  intros H0 H1 H2 H3.
  fix IH 1.
  intros [|a [|b [|c l]]];
    [apply H0 | apply H1 | apply H2 | apply H3; apply IH].
Qed.

Theorem base64_decode_encode (bs : list byte) :
  Base64.decode (Base64.encode bs) = Some bs.
Proof.
  induction bs as [|a|a b|a b c l IH] using list_ind3.
  - reflexivity.
  - pose proof (code_bound a) as Ha.
    cbn [Base64.encode].
    rewrite decode_group1 by sextets.
    unfold Base64.bytes1.
    replace (Base64.code a / 4 * 4 + Base64.code a mod 4 * 16 / 16)
      with (Base64.code a) by sextets.
    now rewrite octet_code.
  - pose proof (code_bound a) as Ha. pose proof (code_bound b) as Hb.
    cbn [Base64.encode].
    rewrite decode_group2 by sextets.
    unfold Base64.bytes2.
    rewrite regroup_first by assumption.
    replace ((Base64.code a mod 4 * 16 + Base64.code b / 16) mod 16 * 16
             + Base64.code b mod 16 * 4 / 4)
      with (Base64.code b) by sextets.
    now rewrite !octet_code.
  - pose proof (code_bound a) as Ha. pose proof (code_bound b) as Hb.
    pose proof (code_bound c) as Hc.
    cbn [Base64.encode].
    rewrite decode_group3 by sextets.
    unfold Base64.bytes3.
    rewrite regroup_first, regroup_second, regroup_third by assumption.
    now rewrite !octet_code, IH.
Qed.

End Base64Facts.

(** ** Data URLs *)

Section DataURLFacts.

Local Open Scope string_scope.
Local Open Scope Z_scope.

Example decode_png :
  DataURL.decode "data:image/png;base64,TWFu"
  = Some ("image/png", ["M"%byte; "a"%byte; "n"%byte]).
Proof. reflexivity. Qed.

Lemma append_assoc (a b c : string) : (a ++ b) ++ c = a ++ (b ++ c).
Proof. induction a as [|x a IH]; cbn; [reflexivity | now rewrite IH]. Qed.

Lemma length_append (a b : string) :
  String.length (a ++ b) = (String.length a + String.length b)%nat.
Proof. induction a as [|x a IH]; cbn; [reflexivity | now rewrite IH]. Qed.

Lemma strip_prefix_append (p s : string) :
  DataURL.strip_prefix p (p ++ s) = Some s.
Proof.
  induction p as [|x p IH]; cbn.
  - now destruct s.
  - now rewrite Ascii.eqb_refl.
Qed.

Lemma split_comma_append (h b : string) :
  DataURL.has_comma h = false ->
  DataURL.split_comma (h ++ String DataURL.comma b) = Some (h, b).
Proof.
  induction h as [|x h IH];
    cbn [DataURL.has_comma append DataURL.split_comma]; intros Hh.
  - now rewrite Ascii.eqb_refl.
  - apply orb_false_iff in Hh as [Hx Hh].
    now rewrite Hx, IH.
Qed.

Lemma strip_suffix_append (m suf : string) :
  DataURL.strip_suffix suf (m ++ suf) = Some m.
Proof.
  induction m as [|x m IH].
  - cbn [append].
    destruct suf; cbn [DataURL.strip_suffix]; now rewrite String.eqb_refl.
  - cbn [append DataURL.strip_suffix].
    destruct (String.eqb_spec (String x (m ++ suf)) suf) as [E|_].
    + apply (f_equal String.length) in E. cbn in E.
      rewrite length_append in E. lia.
    + now rewrite IH.
Qed.

Lemma has_comma_append (a b : string) :
  DataURL.has_comma (a ++ b) = DataURL.has_comma a || DataURL.has_comma b.
Proof.
  induction a as [|x a IH]; cbn; [reflexivity|].
  now rewrite IH, orb_assoc.
Qed.

(** Decoding what the reader wrote gives the bytes and the media type
    written, whenever that has no comma; an omitted media type reads as
    the default. *)
Lemma dataurl_decode_readAsDataURL (untyped : string) (f : File) :
  DataURL.has_comma (DataURL.media_type untyped f) = false ->
  DataURL.decode (DataURL.readAsDataURL untyped f)
  = Some (if (DataURL.media_type untyped f =? "")%string
          then DataURL.default_mediatype
          else DataURL.media_type untyped f,
          file_bytes f).
Proof.
  intros Hc. unfold DataURL.decode, DataURL.readAsDataURL.
  rewrite strip_prefix_append.
  replace (DataURL.media_type untyped f ++ ";base64,"
             ++ Base64.encode (file_bytes f))
    with ((DataURL.media_type untyped f ++ ";base64")
            ++ String DataURL.comma (Base64.encode (file_bytes f)))
    by (rewrite append_assoc; reflexivity).
  rewrite split_comma_append
    by (rewrite has_comma_append, Hc; reflexivity).
  now rewrite strip_suffix_append, base64_decode_encode.
Qed.

(** No payload decodes to the empty media type. *)
Lemma dataurl_decode_media_nonempty (url mediatype : string)
    (content : list byte) :
  DataURL.decode url = Some (mediatype, content) -> mediatype <> "".
Proof.
  unfold DataURL.decode.
  destruct (DataURL.strip_prefix "data:" url) as [rest|]; [|discriminate].
  destruct (DataURL.split_comma rest) as [[header body]|]; [|discriminate].
  destruct (DataURL.strip_suffix ";base64" header) as [m|]; [|discriminate].
  destruct (Base64.decode body) as [bs|]; [|discriminate].
  destruct (String.eqb_spec m "") as [->|Hm]; intros E; inversion E; subst.
  - discriminate.
  - assumption.
Qed.

End DataURLFacts.

(** ** The object store *)

Section StoreFacts.

Context `{Engine}.

Lemma In_put_record (r x : FileRecord) (l : list FileRecord) :
  In x (put_record r l) <-> x = r \/ In x l.
Proof.
  induction l as [|y l IH]; cbn.
  - intuition congruence.
  - destruct (id r <? id y); cbn; rewrite ?IH; intuition congruence.
Qed.

Lemma In_remove_key (key : number) (x : FileRecord) (l : list FileRecord) :
  In x (remove_key key l) <-> In x l /\ key_is key (id x) = false.
Proof.
  unfold remove_key. rewrite filter_In, negb_true_iff. reflexivity.
Qed.

Lemma has_key_false (k : Z) (l : list FileRecord) :
  has_key k l = false <-> forall r, In r l -> id r <> k.
Proof.
  unfold has_key. induction l as [|x l IH]; cbn.
  - intuition.
  - rewrite orb_false_iff, IH, Z.eqb_neq.
    split.
    + intros [Hx Hl] r [<-|Hr]; auto.
    + intros Hall; split; [apply Hall | intros r Hr; apply Hall]; auto.
Qed.

Lemma ids_put_record (r : FileRecord) (l : list FileRecord) (k : Z) :
  In k (map id (put_record r l)) <-> k = id r \/ In k (map id l).
Proof.
  rewrite !in_map_iff. split.
  - intros (x & <- & Hx). apply In_put_record in Hx as [->|Hx]; eauto.
  - intros [->|(x & <- & Hx)].
    + exists r. split; [reflexivity | apply In_put_record; auto].
    + exists x. split; [reflexivity | apply In_put_record; auto].
Qed.

Lemma NoDup_put_record (r : FileRecord) (l : list FileRecord) :
  has_key (id r) l = false ->
  NoDup (map id l) -> NoDup (map id (put_record r l)).
Proof.
  intros Hk. rewrite has_key_false in Hk.
  induction l as [|x l IH]; cbn; intros Hl.
  - repeat constructor. intros [].
  - inversion Hl as [|? ? Hx Hl']; subst.
    destruct (id r <? id x); cbn.
    + constructor; [|assumption].
      cbn. intros [E|Hin].
      * apply (Hk x); [left; reflexivity | assumption].
      * apply in_map_iff in Hin as (y & E & Hy).
        apply (Hk y); [right; assumption | assumption].
    + constructor.
      * rewrite ids_put_record. intros [E|Hin]; [|contradiction].
        apply (Hk x); [left; reflexivity | assumption].
      * apply IH; [|assumption].
        intros y Hy. apply Hk. right. assumption.
Qed.

Lemma NoDup_remove_key (key : number) (l : list FileRecord) :
  NoDup (map id l) -> NoDup (map id (remove_key key l)).
Proof.
  unfold remove_key. induction l as [|x l IH]; cbn; intros Hl.
  - constructor.
  - inversion Hl as [|? ? Hx Hl']; subst.
    destruct (negb (key_is key (id x))); cbn; [|auto].
    constructor; [|auto].
    rewrite in_map_iff. intros (y & E & Hy).
    apply filter_In in Hy as [Hy _].
    apply Hx. rewrite <- E. apply in_map. assumption.
Qed.

Lemma key_is_integer (a b : Z) : key_is (Finite (inject_Z a)) b = (a =? b).
Proof.
  unfold key_is, Qeq_bool, inject_Z. cbn.
  rewrite !Z.mul_1_r. reflexivity.
Qed.

(** *** What each function does to the page *)

Ltac unfold_store :=
  unfold addFileRecord, getAllFiles, deleteFile, fileToDataURL, openDB,
    andThen, resolve, indexedDB_open, set_db, transaction,
    Date_toISOString, store_add, store_getAll, store_delete,
    FileReader_readAsDataURL in *.

Ltac case_split :=
  repeat match goal with
  | H : context [match ?x with _ => _ end] |- _ => destruct x eqn:?
  | |- context [match ?x with _ => _ end] => destruct x eqn:?
  | H : (_, _) = (_, _) |- _ => inversion H; subst; clear H
  | H : Some _ = Some _ |- _ => inversion H; subst; clear H
  | H1 : ?x = _, H2 : ?x = _ |- _ => rewrite H1 in H2
  end.

Ltac settle :=
  unfold_store; unfold stored, next_key, step, write in *;
  intros; cbn in *; case_split; cbn in *; case_split;
  repeat match goal with
  | E : ?x = _ |- context [match ?x with _ => _ end] => rewrite E
  end;
  try discriminate; try congruence; auto.

Lemma openDB_known (h : Handle) (w : World) :
  db w = Some h -> openDB w = (Resolved h, w).
Proof. intros E. unfold openDB, resolve. now rewrite E. Qed.

Lemma openDB_resolved (w w' : World) (h : Handle) :
  openDB w = (Resolved h, w') ->
  db w' = Some h /\
  stored w' = stored w /\ next_key w' = next_key w /\
  (tick w <= tick w')%nat /\
  (db w = None \/ database w <> None -> database w' <> None).
Proof.
  settle; intuition (try congruence; try lia).
Qed.

Lemma openDB_rejected (w w' : World) (e : Error) :
  openDB w = (Rejected e, w') ->
  db w' = db w /\ database w' = database w /\ e = OpenFailure.
Proof. settle. Qed.

Lemma addFileRecord_resolved (f : File) (url : string) (w w' : World) (k : Z) :
  addFileRecord f url w = (Resolved k, w') ->
  exists t : nat,
    stored w' =
      put_record {| id := k;
                    fields := {| name := file_name f;
                                 type := file_type f;
                                 size := file_size f;
                                 uploadedAt := clock t;
                                 dataURL := url |} |} (stored w) /\
    (tick w <= t < tick w')%nat /\
    k = next_key w /\ k <= max_generated_key /\
    has_key k (stored w) = false /\
    next_key w' = k + 1 /\
    db w' <> None /\ database w' <> None.
Proof.
  settle;
    match goal with
    | E : (_ <? _) = false |- _ => apply Z.ltb_ge in E
    end;
    eexists; (repeat split); try reflexivity; try assumption;
    try lia; try congruence.
Qed.

Lemma addFileRecord_rejected (f : File) (url : string) (w w' : World)
    (e : Error) :
  addFileRecord f url w = (Rejected e, w') ->
  stored w' = stored w /\ next_key w' = next_key w.
Proof. settle. Qed.

Lemma getAllFiles_resolved (w w' : World) (l : list FileRecord) :
  getAllFiles w = (Resolved l, w') ->
  l = stored w /\ stored w' = stored w /\ next_key w' = next_key w.
Proof. settle. Qed.

Lemma getAllFiles_rejected (w w' : World) (e : Error) :
  getAllFiles w = (Rejected e, w') ->
  stored w' = stored w /\ next_key w' = next_key w.
Proof. settle. Qed.

Lemma deleteFile_resolved (v : jsval) (w w' : World) (u : unit) :
  deleteFile v w = (Resolved u, w') ->
  Number v <> NaN /\
  stored w' = remove_key (Number v) (stored w) /\
  next_key w' = next_key w.
Proof. settle; repeat split; congruence. Qed.

Lemma deleteFile_rejected (v : jsval) (w w' : World) (e : Error) :
  deleteFile v w = (Rejected e, w') ->
  stored w' = stored w /\ next_key w' = next_key w.
Proof. settle. Qed.

Lemma fileToDataURL_effect (f : File) (w w' : World) (r : Result string) :
  fileToDataURL f w = (r, w') ->
  db w' = db w /\ database w' = database w /\ opened w' = opened w.
Proof. settle. Qed.

(** *** Lifting a relation from the functions to loops and sessions *)

Lemma across_andThen {A B} (R : World -> World -> Prop) `{!Transitive R}
    (p : Promise A) (k : A -> Promise B) :
  across R p -> (forall a, across R (k a)) -> across R (andThen p k).
Proof.
  intros Hp Hk w. unfold andThen.
  specialize (Hp w). destruct (p w) as [[a|e] w1]; cbn in *.
  - transitivity w1; [assumption | apply Hk].
  - assumption.
Qed.

Lemma across_upload_each (R : World -> World -> Prop) `{!PreOrder R} :
  (forall f, across R (fileToDataURL f)) ->
  (forall f url, across R (addFileRecord f url)) ->
  forall files, across R (upload_each files).
Proof.
  intros Hread Hadd files.
  induction files as [|f rest IH]; cbn [upload_each].
  - intros w. cbn. reflexivity.
  - apply across_andThen; [typeclasses eauto | apply Hread |].
    intros url. apply across_andThen; [typeclasses eauto | apply Hadd |].
    intros _. exact IH.
Qed.

Lemma across_handleFiles (R : World -> World -> Prop) `{!PreOrder R} :
  (forall f, across R (fileToDataURL f)) ->
  (forall f url, across R (addFileRecord f url)) ->
  forall files, across R (handleFiles files).
Proof.
  intros Hread Hadd [|f rest].
  - intros w. cbn. reflexivity.
  - apply (across_upload_each R Hread Hadd).
Qed.

Lemma after_across (R : World -> World -> Prop) (op : Op) :
  match op with
  | OpenDB => across R openDB
  | AddFileRecord f url => across R (addFileRecord f url)
  | GetAllFiles => across R getAllFiles
  | DeleteFile v => across R (deleteFile v)
  | HandleFiles files => across R (handleFiles files)
  end ->
  forall w, R w (after op w).
Proof.
  unfold after, perform.
  destruct op; intros Hop w; specialize (Hop w);
    match goal with
    | |- context [let (_, _) := ?p in _] => destruct p
    end; exact Hop.
Qed.

Lemma finish_across (R : World -> World -> Prop) `{!PreOrder R}
    (ops : list Op) :
  (forall op, In op ops -> forall w, R w (after op w)) ->
  forall w, R w (finish ops w).
Proof.
  unfold finish.
  induction ops as [|op rest IH]; intros Hops w; cbn [run].
  - cbn. reflexivity.
  - pose proof (Hops op (or_introl eq_refl) w) as Hop.
    unfold after in Hop.
    destruct (perform op w) as [o w1]; cbn in Hop.
    specialize (IH (fun op' Hin => Hops op' (or_intror Hin)) w1).
    destruct (run rest w1) as [os w2]; cbn in *.
    transitivity w1; assumption.
Qed.

Lemma finish_cons (op : Op) (ops : list Op) (w : World) :
  finish (op :: ops) w = finish ops (after op w).
Proof.
  unfold finish, after. cbn [run].
  destruct (perform op w) as [o w1]; cbn.
  destruct (run ops w1) as [os w2]; reflexivity.
Qed.

(** *** The relations are preorders *)

#[local] Instance keeps_preorder (r : FileRecord) : PreOrder (keeps r).
Proof. split; unfold keeps; [intros w | intros a b c]; auto. Qed.

#[local] Instance adds_nothing_preorder : PreOrder adds_nothing.
Proof. split; unfold adds_nothing; [intros w | intros a b c]; auto. Qed.

#[local] Instance stays_unique_preorder : PreOrder stays_unique.
Proof. split; unfold stays_unique; [intros w | intros a b c]; auto. Qed.

#[local] Instance stays_ok_preorder : PreOrder stays_ok.
Proof. split; unfold stays_ok; [intros w | intros a b c]; auto. Qed.

#[local] Instance same_handle_preorder (h : Handle) : PreOrder (same_handle h).
Proof.
  split; unfold same_handle.
  - intros w Hw. repeat split; auto.
    exists []. rewrite app_nil_r. auto.
  - intros a b c Hab Hbc Ha.
    destruct (Hab Ha) as (Hb & Ho & evs & Ht & Hevs).
    destruct (Hbc Hb) as (Hc & Ho' & evs' & Ht' & Hevs').
    repeat split; [assumption | congruence |].
    exists (evs ++ evs')%list. split.
    + rewrite Ht', Ht, app_assoc. reflexivity.
    + apply Forall_app; auto.
Qed.

(** *** Each function against each relation *)

Ltac by_result f :=
  let E := fresh "E" in
  intros w; destruct (f w) as [[?|?] ?] eqn:E; cbn [snd].

Lemma keeps_openDB (r : FileRecord) : across (keeps r) openDB.
Proof.
  by_result openDB; unfold keeps.
  - apply openDB_resolved in E as (_ & -> & _). auto.
  - apply openDB_rejected in E as (_ & Hd & _). unfold stored. now rewrite Hd.
Qed.

Lemma keeps_getAllFiles (r : FileRecord) : across (keeps r) getAllFiles.
Proof.
  by_result getAllFiles; unfold keeps.
  - apply getAllFiles_resolved in E as (_ & -> & _). auto.
  - apply getAllFiles_rejected in E as (-> & _). auto.
Qed.

Lemma keeps_fileToDataURL (r : FileRecord) (f : File) :
  across (keeps r) (fileToDataURL f).
Proof.
  intros w. destruct (fileToDataURL f w) as [res w'] eqn:E; cbn [snd].
  apply fileToDataURL_effect in E as (_ & Hd & _).
  unfold keeps, stored. now rewrite Hd.
Qed.

Lemma keeps_addFileRecord (r : FileRecord) (f : File) (url : string) :
  across (keeps r) (addFileRecord f url).
Proof.
  by_result (addFileRecord f url); unfold keeps.
  - apply addFileRecord_resolved in E as (t & -> & _).
    intros Hr. apply In_put_record. now right.
  - apply addFileRecord_rejected in E as (-> & _). auto.
Qed.

Lemma keeps_deleteFile (r : FileRecord) (v : jsval) :
  key_is (Number v) (id r) = false -> across (keeps r) (deleteFile v).
Proof.
  intros Hk. by_result (deleteFile v); unfold keeps.
  - apply deleteFile_resolved in E as (_ & -> & _).
    intros Hr. apply In_remove_key. auto.
  - apply deleteFile_rejected in E as (-> & _). auto.
Qed.




Lemma stays_unique_openDB : across stays_unique openDB.
Proof.
  by_result openDB; unfold stays_unique, unique_ids.
  - apply openDB_resolved in E as (_ & -> & _). auto.
  - apply openDB_rejected in E as (_ & Hd & _). unfold stored. now rewrite Hd.
Qed.

Lemma stays_unique_getAllFiles : across stays_unique getAllFiles.
Proof.
  by_result getAllFiles; unfold stays_unique, unique_ids.
  - apply getAllFiles_resolved in E as (_ & -> & _). auto.
  - apply getAllFiles_rejected in E as (-> & _). auto.
Qed.

Lemma stays_unique_fileToDataURL (f : File) :
  across stays_unique (fileToDataURL f).
Proof.
  intros w. destruct (fileToDataURL f w) as [res w'] eqn:E; cbn [snd].
  apply fileToDataURL_effect in E as (_ & Hd & _).
  unfold stays_unique, unique_ids, stored. now rewrite Hd.
Qed.

Lemma stays_unique_addFileRecord (f : File) (url : string) :
  across stays_unique (addFileRecord f url).
Proof.
  by_result (addFileRecord f url); unfold stays_unique, unique_ids.
  - apply addFileRecord_resolved in E as (t & -> & _ & _ & _ & Hk & _).
    apply NoDup_put_record. exact Hk.
  - apply addFileRecord_rejected in E as (-> & _). auto.
Qed.

Lemma stays_unique_deleteFile (v : jsval) : across stays_unique (deleteFile v).
Proof.
  by_result (deleteFile v); unfold stays_unique, unique_ids.
  - apply deleteFile_resolved in E as (_ & -> & _).
    apply NoDup_remove_key.
  - apply deleteFile_rejected in E as (-> & _). auto.
Qed.

Ltac ok_cases :=
  unfold across, stays_ok, world_ok; intros w [Hdb Hkeys]; settle;
  (split; [intros _; congruence || (apply Hdb; congruence) | try assumption]).

Lemma stays_ok_openDB : across stays_ok openDB.
Proof. ok_cases; intros r []. Qed.

Lemma stays_ok_getAllFiles : across stays_ok getAllFiles.
Proof. ok_cases; intros r []. Qed.

Lemma stays_ok_fileToDataURL (f : File) : across stays_ok (fileToDataURL f).
Proof. ok_cases. Qed.

Lemma stays_ok_deleteFile (v : jsval) : across stays_ok (deleteFile v).
Proof.
  ok_cases; cbn; intros x Hx; apply In_remove_key in Hx as [Hx _];
    auto; contradiction.
Qed.

Lemma stays_ok_addFileRecord (f : File) (url : string) :
  across stays_ok (addFileRecord f url).
Proof.
  ok_cases; cbn; intros x Hx;
    first [ apply In_put_record in Hx as [->|Hx] | destruct Hx as [<-|[]] ];
    cbn; try lia; apply Hkeys in Hx; lia.
Qed.

Ltac handle_cases :=
  unfold across, same_handle; intros w Hw; settle;
  (repeat split; try congruence);
  rewrite <- ?app_assoc;
  first [ exists []; rewrite app_nil_r; split; [reflexivity | constructor]
        | eexists; split; [reflexivity | cbn; repeat constructor] ].

Lemma same_handle_openDB (h : Handle) : across (same_handle h) openDB.
Proof. handle_cases. Qed.

Lemma same_handle_getAllFiles (h : Handle) : across (same_handle h) getAllFiles.
Proof. handle_cases. Qed.

Lemma same_handle_fileToDataURL (h : Handle) (f : File) :
  across (same_handle h) (fileToDataURL f).
Proof. handle_cases. Qed.

Lemma same_handle_deleteFile (h : Handle) (v : jsval) :
  across (same_handle h) (deleteFile v).
Proof. handle_cases. Qed.

Lemma same_handle_addFileRecord (h : Handle) (f : File) (url : string) :
  across (same_handle h) (addFileRecord f url).
Proof. handle_cases. Qed.

(** *** Sessions *)

Lemma same_handle_after (h : Handle) (op : Op) (w : World) :
  same_handle h w (after op w).
Proof.
  apply after_across. destruct op.
  - apply same_handle_openDB.
  - apply same_handle_addFileRecord.
  - apply same_handle_getAllFiles.
  - apply same_handle_deleteFile.
  - apply across_handleFiles; [typeclasses eauto | |].
    + apply same_handle_fileToDataURL.
    + apply same_handle_addFileRecord.
Qed.

Lemma stays_ok_after (op : Op) (w : World) : stays_ok w (after op w).
Proof.
  apply after_across. destruct op.
  - apply stays_ok_openDB.
  - apply stays_ok_addFileRecord.
  - apply stays_ok_getAllFiles.
  - apply stays_ok_deleteFile.
  - apply across_handleFiles; [typeclasses eauto | |].
    + apply stays_ok_fileToDataURL.
    + apply stays_ok_addFileRecord.
Qed.

Lemma stays_unique_after (op : Op) (w : World) : stays_unique w (after op w).
Proof.
  apply after_across. destruct op.
  - apply stays_unique_openDB.
  - apply stays_unique_addFileRecord.
  - apply stays_unique_getAllFiles.
  - apply stays_unique_deleteFile.
  - apply across_handleFiles; [typeclasses eauto | |].
    + apply stays_unique_fileToDataURL.
    + apply stays_unique_addFileRecord.
Qed.

Lemma keeps_after (r : FileRecord) (op : Op) (w : World) :
  targets op (id r) = false -> keeps r w (after op w).
Proof.
  intros Ht. apply after_across. destruct op.
  - apply keeps_openDB.
  - apply keeps_addFileRecord.
  - apply keeps_getAllFiles.
  - apply keeps_deleteFile. exact Ht.
  - apply across_handleFiles; [typeclasses eauto | |].
    + apply keeps_fileToDataURL.
    + apply keeps_addFileRecord.
Qed.


(** Every page a session builds from the empty one is well formed and has
    one record per id. *)
Lemma initial_ok : world_ok initial /\ unique_ids initial.
Proof.
  repeat split; cbn.
  - intros Hdb. now contradiction Hdb.
  - intros r [].
  - constructor.
Qed.

Lemma session_ok (ops : list Op) :
  world_ok (finish ops initial) /\ unique_ids (finish ops initial).
Proof.
  split.
  - apply (finish_across stays_ok ops (fun op _ => stays_ok_after op)).
    apply initial_ok.
  - apply (finish_across stays_unique ops (fun op _ => stays_unique_after op)).
    apply initial_ok.
Qed.


Lemma same_id_same_record (l : list FileRecord) (r r' : FileRecord) :
  NoDup (map id l) -> In r l -> In r' l -> id r' = id r -> r' = r.
Proof.
  induction l as [|x l IH]; cbn; [intros _ []|].
  intros Hnd Hr Hr' Hid.
  inversion Hnd as [|? ? Hx Hl]; subst.
  destruct Hr as [->|Hr], Hr' as [->|Hr']; auto.
  - exfalso. apply Hx. rewrite <- Hid. now apply in_map.
  - exfalso. apply Hx. rewrite Hid. now apply in_map.
Qed.

Lemma remove_key_absent (key : number) (l : list FileRecord) :
  (forall r, In r l -> key_is key (id r) = false) -> remove_key key l = l.
Proof.
  unfold remove_key. induction l as [|x l IH]; cbn; intros Hl; [reflexivity|].
  rewrite (Hl x) by now left. cbn.
  rewrite IH; [reflexivity|]. intros r Hr. apply Hl. now right.
Qed.

Lemma deleteFile_succeeds (v : jsval) (w : World) :
  reliable -> world_ok w -> Number v <> NaN ->
  exists w', deleteFile v w = (Resolved tt, w').
Proof.
  unfold reliable, world_ok. intros Hrel [Hdb _] Hv.
  pose proof (Hrel (tick w)) as Hf0.
  pose proof (Hrel (S (tick w))) as Hf1.
  settle; try (eexists; reflexivity); exfalso; apply Hdb; congruence.
Qed.



(** C3: [deleteFile] with an id that no stored record has (the integer
    id [n], passed as any value whose Number it is: the number itself or a
    string that reads as it) leaves the stored records as they are, however
    it settles, and it resolves unless the engine fails. *)
Theorem delete_absent (v : jsval) (n : Z) (w : World) :
  Number v = Finite (inject_Z n) ->
  (forall r, In r (stored w) -> id r <> n) ->
  (forall res w', deleteFile v w = (res, w') -> stored w' = stored w) /\
  (reliable -> world_ok w -> exists w', deleteFile v w = (Resolved tt, w')).
Proof.
  intros Hv Habsent. split.
  - intros [u|e] w' Hdel.
    + apply deleteFile_resolved in Hdel as (_ & -> & _).
      apply remove_key_absent. intros r Hr.
      rewrite Hv, key_is_integer. apply Z.eqb_neq.
      intros E. now apply (Habsent r Hr).
    + now apply deleteFile_rejected in Hdel.
  - intros Hrel Hok. apply deleteFile_succeeds; try assumption.
    rewrite Hv. discriminate.
Qed.

(** C6: a stored record is never modified.  [addFileRecord] leaves it in
    place, so does [deleteFile] with another key, and after any session
    that does not delete its id [getAllFiles] lists the very same record
    (on a page with one record per id, the only one with that id). *)
Theorem records_immutable (r : FileRecord) (w : World) :
  In r (stored w) ->
  (forall f url, In r (stored (snd (addFileRecord f url w)))) /\
  (forall v, key_is (Number v) (id r) = false ->
             In r (stored (snd (deleteFile v w)))) /\
  (forall ops : list Op,
     (forall op, In op ops -> targets op (id r) = false) ->
     forall l w',
       getAllFiles (finish ops w) = (Resolved l, w') ->
       In r l /\
       (unique_ids w -> forall r', In r' l -> id r' = id r -> r' = r)).
Proof.
  intros Hr. split; [|split].
  - intros f url. now apply keeps_addFileRecord.
  - intros v Hv. now apply keeps_deleteFile.
  - intros ops Hops l w' Hl.
    apply getAllFiles_resolved in Hl as (-> & _).
    assert (Hin : In r (stored (finish ops w))).
    { apply (finish_across (keeps r) ops); [|assumption].
      intros op Hop w0. apply keeps_after. now apply Hops. }
    split; [exact Hin|].
    intros Hu r' Hr' Hid.
    apply (same_id_same_record (stored (finish ops w))); try assumption.
    now apply (finish_across stays_unique ops
                 (fun op _ => stays_unique_after op)).
Qed.

(** C7: once [openDB] has resolved with a handle, every later call
    resolves with the same handle and leaves the page as it is: whatever
    the session, no connection is opened again and every transaction runs
    on that handle. *)
Theorem openDB_idempotent (w w1 : World) (h : Handle) :
  openDB w = (Resolved h, w1) ->
  forall ops : list Op,
    openDB (finish ops w1) = (Resolved h, finish ops w1) /\
    opened (finish ops w1) = opened w1 /\
    exists evs,
      trace (finish ops w1) = (trace w1 ++ evs)%list /\
      Forall (on_handle h) evs.
Proof.
  intros Hopen ops.
  apply openDB_resolved in Hopen as (Hdb & _).
  destruct (finish_across (same_handle h) ops
              (fun op _ => same_handle_after h op) w1 Hdb)
    as (Hdb' & Hopened & Hevs).
  split; [now apply openDB_known | split; assumption].
Qed.

(** *** Sequences of inserts *)


Lemma addFileRecord_succeeds (f : File) (url : string) (w : World) :
  reliable -> world_ok w -> next_key w <= max_generated_key ->
  exists w', addFileRecord f url w = (Resolved (next_key w), w').
Proof.
  unfold reliable, world_ok. intros Hrel [Hdb Hkeys] Hmax.
  pose proof (Hrel (tick w)) as Hf0.
  pose proof (Hrel (S (tick w))) as Hf1.
  assert (Hfresh : has_key (next_key w) (stored w) = false).
  { apply has_key_false. intros r Hr. apply Hkeys in Hr. lia. }
  revert Hmax Hfresh.
  settle; try (eexists; reflexivity);
    try (exfalso; apply Hdb; congruence);
    unfold max_generated_key in *; cbn in *; lia.
Qed.


#[local] Instance grows_preorder : PreOrder grows.
Proof. split; unfold grows; [intros w | intros a b c]; lia. Qed.







Lemma increasing_NoDup (l : list Z) : StronglySorted Z.lt l -> NoDup l.
Proof.
  induction 1 as [|k l Hs IH Hall]; constructor; [|assumption].
  intros Hin. rewrite Forall_forall in Hall. apply Hall in Hin. lia.
Qed.



(** *** The upload loop *)

Lemma handleFiles_upload_each (files : list File) :
  handleFiles files = upload_each files.
Proof. destruct files; reflexivity. Qed.


Lemma upload_each_cons_resolved (f : File) (rest : list File) (w w' : World)
    (u : unit) :
  upload_each (f :: rest) w = (Resolved u, w') ->
  exists w0 k w1,
    fileToDataURL f w
    = (Resolved (DataURL.readAsDataURL untyped_media f), w0) /\
    addFileRecord f (DataURL.readAsDataURL untyped_media f) w0
    = (Resolved k, w1) /\
    upload_each rest w1 = (Resolved u, w').
Proof.
  cbn [upload_each]. unfold andThen.
  destruct (fileToDataURL f w) as [[url|e] w0] eqn:E0; [|discriminate].
  assert (url = DataURL.readAsDataURL untyped_media f) as ->.
  { unfold fileToDataURL, FileReader_readAsDataURL in E0.
    destruct (fault (tick w)); congruence. }
  destruct (addFileRecord f (DataURL.readAsDataURL untyped_media f) w0)
    as [[k|e] w1] eqn:E1; [|discriminate].
  intros E2. exists w0, k, w1. auto.
Qed.










(** C5, amended: the payload stored for an uploaded file whose type has
    no comma decodes to the file's type and bytes when the type is not
    empty; for a file without type it still decodes to the bytes (the
    media type the engine writes having no comma). *)
Theorem payload_round_trip (f : File) (w w0 w1 : World) (url : string) (k : Z) :
  DataURL.has_comma (file_type f) = false ->
  fileToDataURL f w = (Resolved url, w0) ->
  addFileRecord f url w0 = (Resolved k, w1) ->
  forall l w2,
    getAllFiles w1 = (Resolved l, w2) ->
    exists r, In r l /\ id r = k /\
              type (fields r) = file_type f /\
              (file_type f <> EmptyString ->
               DataURL.decode (dataURL (fields r))
               = Some (file_type f, file_bytes f)) /\
              (DataURL.has_comma untyped_media = false ->
               option_map snd (DataURL.decode (dataURL (fields r)))
               = Some (file_bytes f)).
Proof.
  intros Hc Hread Hadd l w2 Hl.
  assert (url = DataURL.readAsDataURL untyped_media f) as ->.
  { unfold fileToDataURL, FileReader_readAsDataURL in Hread.
    destruct (fault (tick w)); congruence. }
  apply addFileRecord_resolved in Hadd as (t & Hst & _).
  apply getAllFiles_resolved in Hl as (-> & _).
  eexists. split; [rewrite Hst; apply In_put_record; left; reflexivity|].
  cbn [id fields type dataURL].
  repeat split.
  - intros Hne.
    assert (Hm : DataURL.media_type untyped_media f = file_type f).
    { unfold DataURL.media_type.
      apply String.eqb_neq in Hne. now rewrite Hne. }
    rewrite dataurl_decode_readAsDataURL by now rewrite Hm.
    rewrite Hm. apply String.eqb_neq in Hne. now rewrite Hne.
  - intros Hu.
    rewrite dataurl_decode_readAsDataURL; [reflexivity|].
    unfold DataURL.media_type. now destruct (file_type f =? "")%string.
Qed.

(** *** Key order *)

Lemma put_record_last (r : FileRecord) (l : list FileRecord) :
  (forall x, In x l -> id x < id r) -> put_record r l = (l ++ [r])%list.
Proof.
  induction l as [|y l IH]; cbn; intros Hl; [reflexivity|].
  assert (Hy : id y < id r) by (apply Hl; now left).
  destruct (Z.ltb_spec (id r) (id y)); [lia|].
  rewrite IH; [reflexivity|]. intros x Hx. apply Hl. now right.
Qed.

Lemma put_record_sorted (r : FileRecord) (l : list FileRecord) :
  has_key (id r) l = false ->
  StronglySorted Z.lt (map id l) ->
  StronglySorted Z.lt (map id (put_record r l)).
Proof.
  intros Hk. rewrite has_key_false in Hk.
  induction l as [|y l IH]; cbn [put_record map]; intros Hs.
  - repeat constructor.
  - inversion Hs as [|? ? Hl Hall]; subst.
    assert (Hne : id y <> id r) by (apply Hk; now left).
    destruct (Z.ltb_spec (id r) (id y)); cbn [map].
    + constructor; [exact Hs|].
      constructor; [assumption|].
      apply Forall_forall. intros k Hin.
      rewrite Forall_forall in Hall. apply Hall in Hin. lia.
    + constructor.
      * apply IH; [|assumption]. intros x Hx. apply Hk. now right.
      * apply Forall_forall. intros k Hin.
        apply ids_put_record in Hin as [->|Hin]; [lia|].
        rewrite Forall_forall in Hall. now apply Hall.
Qed.

Lemma remove_key_sorted (key : number) (l : list FileRecord) :
  StronglySorted Z.lt (map id l) ->
  StronglySorted Z.lt (map id (remove_key key l)).
Proof.
  unfold remove_key.
  induction l as [|y l IH]; cbn [filter map]; intros Hs; [constructor|].
  inversion Hs as [|? ? Hl Hall]; subst.
  destruct (negb (key_is key (id y))); cbn [map]; [|auto].
  constructor; [auto|].
  apply Forall_forall. intros k Hin.
  apply in_map_iff in Hin as (x & <- & Hx). apply filter_In in Hx as [Hx _].
  rewrite Forall_forall in Hall. apply Hall. now apply in_map.
Qed.

#[local] Instance stays_sorted_preorder : PreOrder stays_sorted.
Proof. split; unfold stays_sorted; [intros w | intros a b c]; auto. Qed.

Lemma stays_sorted_after (op : Op) : forall w, stays_sorted w (after op w).
Proof.
  assert (Hadd : forall f url, across stays_sorted (addFileRecord f url)).
  { intros f url. by_result (addFileRecord f url);
      unfold stays_sorted, sorted_ids.
    - apply addFileRecord_resolved in E as (t & -> & _ & _ & _ & Hk & _).
      apply put_record_sorted. exact Hk.
    - apply addFileRecord_rejected in E as (-> & _). auto. }
  assert (Hread : forall f, across stays_sorted (fileToDataURL f)).
  { intros f w0. destruct (fileToDataURL f w0) as [res w'] eqn:E; cbn [snd].
    apply fileToDataURL_effect in E as (_ & Hd & _).
    unfold stays_sorted, sorted_ids, stored. now rewrite Hd. }
  apply after_across. destruct op.
  - by_result openDB; unfold stays_sorted, sorted_ids.
    + apply openDB_resolved in E as (_ & -> & _). auto.
    + apply openDB_rejected in E as (_ & Hd & _). unfold stored.
      now rewrite Hd.
  - apply Hadd.
  - by_result getAllFiles; unfold stays_sorted, sorted_ids.
    + apply getAllFiles_resolved in E as (_ & -> & _). auto.
    + apply getAllFiles_rejected in E as (-> & _). auto.
  - by_result (deleteFile v); unfold stays_sorted, sorted_ids.
    + apply deleteFile_resolved in E as (_ & -> & _).
      apply remove_key_sorted.
    + apply deleteFile_rejected in E as (-> & _). auto.
  - apply across_handleFiles; [typeclasses eauto | exact Hread | exact Hadd].
Qed.

(** X5: on every page that a session of the entry points builds from the
    empty page, the stored records are in strictly increasing order of id
    (so no two share an id), every id is below the current number of the
    key generator, and [db] is set only if the store exists. *)
Theorem session_pages_sorted (ops : list Op) :
  StronglySorted Z.lt (map id (stored (finish ops initial))) /\
  NoDup (map id (stored (finish ops initial))) /\
  (forall r, In r (stored (finish ops initial)) ->
             id r < next_key (finish ops initial)) /\
  (db (finish ops initial) <> None -> database (finish ops initial) <> None).
Proof.
  assert (Hs : sorted_ids (finish ops initial)).
  { apply (finish_across stays_sorted ops (fun op _ => stays_sorted_after op)).
    constructor. }
  destruct (finish_across stays_ok ops (fun op _ => stays_ok_after op)
              initial (proj1 initial_ok)) as [Hdb Hkeys].
  repeat split; try assumption.
  now apply increasing_NoDup.
Qed.

(** *** What a batch stores *)

Lemma consecutive_length (k : Z) (n : nat) :
  List.length (consecutive k n) = n.
Proof. revert k. induction n as [|n IH]; intros k; cbn; auto. Qed.

Lemma upload_each_appends (files : list File) :
  forall (w w' : World) (u : unit),
    world_ok w ->
    upload_each files w = (Resolved u, w') ->
    exists news,
      stored w' = (stored w ++ news)%list /\
      map id news = consecutive (next_key w) (List.length files) /\
      map essence news
      = map (fun f => (file_name f, file_type f, file_size f,
                       DataURL.readAsDataURL untyped_media f)) files /\
      next_key w' = next_key w + Z.of_nat (List.length files).
Proof.
  induction files as [|f rest IH]; intros w w' u Hok Hup.
  - cbn in Hup. inversion Hup; subst. exists []. cbn.
    rewrite app_nil_r. repeat split. lia.
  - apply upload_each_cons_resolved in Hup
      as (w0 & k & w1 & Hread & Hadd & Hrest).
    pose proof (stays_ok_fileToDataURL f w Hok) as Hok0.
    rewrite Hread in Hok0. cbn [snd] in Hok0.
    pose proof (stays_ok_addFileRecord f
                  (DataURL.readAsDataURL untyped_media f) w0 Hok0) as Hok1.
    rewrite Hadd in Hok1. cbn [snd] in Hok1.
    apply fileToDataURL_effect in Hread as (_ & Hd0 & _).
    assert (Hst0 : stored w0 = stored w) by (unfold stored; now rewrite Hd0).
    assert (Hn0 : next_key w0 = next_key w)
      by (unfold next_key; now rewrite Hd0).
    apply addFileRecord_resolved in Hadd
      as (t & Hst1 & _ & Hk & _ & _ & Hn1 & _).
    rewrite put_record_last in Hst1.
    2:{ intros x Hx. cbn [id]. destruct Hok0 as [_ Hkeys].
        apply Hkeys in Hx. lia. }
    destruct (IH w1 w' u Hok1 Hrest) as (news & Hst & Hids & Hess & Hn).
    eexists (_ :: news). repeat split.
    + rewrite Hst, Hst1, Hst0, <- app_assoc. reflexivity.
    + cbn [map id List.length consecutive]. rewrite Hids, Hn1, Hk, Hn0.
      reflexivity.
    + cbn [map List.length]. rewrite Hess. reflexivity.
    + rewrite Hn, Hn1, Hk, Hn0. cbn [List.length]. lia.
Qed.


Lemma fileToDataURL_succeeds (f : File) (w : World) :
  reliable ->
  exists w', fileToDataURL f w
             = (Resolved (DataURL.readAsDataURL untyped_media f), w') /\
             database w' = database w /\ db w' = db w.
Proof.
  intros Hrel. unfold fileToDataURL, FileReader_readAsDataURL.
  rewrite (Hrel (tick w)). eexists. repeat split.
Qed.

Lemma upload_loop_resolves (files : list File) (w : World) :
  reliable -> world_ok w ->
  next_key w + Z.of_nat (List.length files) <= max_generated_key + 1 ->
  exists w', handleFiles files w = (Resolved tt, w').
Proof.
  intros Hrel. rewrite handleFiles_upload_each.
  revert w. induction files as [|f rest IH]; intros w Hok Hroom.
  - eexists. reflexivity.
  - cbn [List.length] in Hroom. cbn [upload_each]. unfold andThen.
    destruct (fileToDataURL_succeeds f w Hrel) as (w0 & -> & Hd0 & Hdb0).
    assert (Hok0 : world_ok w0).
    { destruct Hok as [Hdb Hkeys]. split.
      - rewrite Hdb0, Hd0. exact Hdb.
      - unfold stored, next_key in *. now rewrite Hd0. }
    assert (Hn0 : next_key w0 = next_key w)
      by (unfold next_key; now rewrite Hd0).
    destruct (addFileRecord_succeeds f (DataURL.readAsDataURL untyped_media f)
                w0 Hrel Hok0) as [w1 Hadd]; [lia|].
    pose proof (stays_ok_addFileRecord f
                  (DataURL.readAsDataURL untyped_media f) w0 Hok0) as Hok1.
    rewrite Hadd in *. cbn [snd] in Hok1.
    apply addFileRecord_resolved in Hadd as (t & _ & _ & _ & _ & _ & Hn1 & _).
    apply IH; [assumption | lia].
Qed.

(** X7: [handleFiles] as the upload area calls it.  When the engine does
    not fail and the key generator has room for one key per file, a batch
    on a well-formed page resolves, with one record per file stored
    behind the former ones, if the page has the status element or the
    list of files is empty.  Without the status element a batch of at
    least one file is rejected with a TypeError before anything is read
    or stored. *)
Theorem handleFiles_resolves (statusEl : bool) (files : list File)
    (w : World) :
  reliable -> world_ok w ->
  next_key w + Z.of_nat (List.length files) <= max_generated_key + 1 ->
  (statusEl = true \/ files = [] ->
   exists w' news,
     handleFiles_status statusEl files w = (Resolved tt, w') /\
     stored w' = (stored w ++ news)%list /\
     map essence news
     = map (fun f => (file_name f, file_type f, file_size f,
                      DataURL.readAsDataURL untyped_media f)) files) /\
  (statusEl = false -> files <> [] ->
   handleFiles_status statusEl files w = (Rejected TypeError, w)).
Proof.
  intros Hrel Hok Hroom. split.
  - intros Hstatus.
    assert (E : handleFiles_status statusEl files = handleFiles files).
    { destruct Hstatus as [->| ->]; [now destruct files | reflexivity]. }
    rewrite E.
    destruct (upload_loop_resolves files w Hrel Hok Hroom) as [w' Hup].
    pose proof Hup as Hloop. rewrite handleFiles_upload_each in Hloop.
    destruct (upload_each_appends files w w' tt Hok Hloop)
      as (news & Hst & _ & Hess & _).
    exists w', news. auto.
  - intros -> Hne. destruct files; [now contradiction Hne | reflexivity].
Qed.

(** *** Failures *)

(** X8: a rejected [addFileRecord] stores nothing and uses no id: the
    stored records and the key generator are as before, the next insert
    that resolves returns the id the rejected one would have had, and the
    error is one of the open, the transaction or the request. *)
Theorem rejected_insert_uses_no_id (f : File) (url : string) (w w1 : World)
    (e : Error) :
  addFileRecord f url w = (Rejected e, w1) ->
  stored w1 = stored w /\
  next_key w1 = next_key w /\
  (forall g url' k w2,
     addFileRecord g url' w1 = (Resolved k, w2) -> k = next_key w) /\
  (e = OpenFailure \/ e = NotFoundError \/ e = RequestFailure
   \/ e = ConstraintError).
Proof.
  intros Hrej.
  pose proof (addFileRecord_rejected _ _ _ _ _ Hrej) as [Hst Hn].
  repeat split; try assumption.
  - intros g url' k w2 Hadd.
    apply addFileRecord_resolved in Hadd as (t & _ & _ & -> & _). exact Hn.
  - clear Hst Hn. revert Hrej. settle; intros; auto.
Qed.

(** X9: a failed open is not remembered.  While [db] is null and the
    engine fails the open, [openDB] and the three store functions reject
    with the open's error after that one step, without a transaction and
    with the database untouched; and the next call opens again, resolving
    with a connection if that step does not fail. *)
Theorem open_failure_not_cached (w : World) :
  db w = None -> fault (tick w) = true ->
  openDB w = (Rejected OpenFailure, step [] w) /\
  (forall f url, addFileRecord f url w = (Rejected OpenFailure, step [] w)) /\
  getAllFiles w = (Rejected OpenFailure, step [] w) /\
  (forall v, deleteFile v w = (Rejected OpenFailure, step [] w)) /\
  db (step [] w) = None /\
  database (step [] w) = database w /\
  trace (step [] w) = trace w /\
  (fault (S (tick w)) = false ->
   exists w', openDB (step [] w) = (Resolved (opened w), w') /\
              db w' = Some (opened w)).
Proof.
  intros Hdb Hf.
  assert (Hopen : openDB w = (Rejected OpenFailure, step [] w)).
  { unfold openDB, andThen, indexedDB_open. now rewrite Hdb, Hf. }
  repeat split; try assumption.
  - intros f url. unfold addFileRecord, andThen. now rewrite Hopen.
  - unfold getAllFiles, andThen. now rewrite Hopen.
  - intros v. unfold deleteFile, andThen. now rewrite Hopen.
  - cbn. now rewrite app_nil_r.
  - intros Hf1. unfold openDB, andThen, indexedDB_open, set_db, resolve.
    cbn. rewrite Hdb, Hf1. eexists. split; reflexivity.
Qed.

(** *** The buttons of the data table *)


Lemma find_by_id (l : list FileRecord) (r : FileRecord) :
  In r l ->
  exists x, find (fun x => key_is (Finite (inject_Z (id r))) (id x)) l = Some x
            /\ In x l /\ id x = id r.
Proof.
  intros Hr.
  destruct (find (fun x => key_is (Finite (inject_Z (id r))) (id x)) l)
    as [x|] eqn:F.
  - apply find_some in F as [Hx Hk].
    rewrite key_is_integer in Hk. apply Z.eqb_eq in Hk. eauto.
  - apply find_none with (x := r) in F; [|assumption].
    rewrite key_is_integer, Z.eqb_refl in F. discriminate.
Qed.


(** X11: a click on Download in the row of a stored record, on a page
    with one record per id, offers that record's data URL under that
    record's name, and changes nothing in the store. *)
Theorem click_download (r : FileRecord) (w : World) (confirmed : bool) :
  StringToNumber (ToString (id r)) = Finite (inject_Z (id r)) ->
  unique_ids w ->
  In r (stored w) ->
  forall res w',
    onButtonClick "download" (ToString (id r)) confirmed w = (res, w') ->
    stored w' = stored w /\
    (res = Resolved (Download (dataURL (fields r)) (name (fields r)))
     \/ exists e, res = Rejected e).
Proof.
  intros Hn Hu Hr res w' Hc.
  unfold onButtonClick, andThen in Hc. rewrite Hn in Hc.
  destruct (getAllFiles w) as [[l|e] w1] eqn:E.
  - apply getAllFiles_resolved in E as (-> & Hst & _).
    destruct (find_by_id (stored w) r Hr) as (x & F & Hx & Hid).
    rewrite F in Hc. cbn in Hc. inversion Hc; subst.
    split; [exact Hst|]. left.
    now rewrite (same_id_same_record (stored w) r x Hu Hr Hx Hid).
  - inversion Hc; subst. split; [|eauto].
    now apply getAllFiles_rejected in E.
Qed.

Lemma getAllFiles_reads (w : World) :
  exists evs,
    trace (snd (getAllFiles w)) = (trace w ++ evs)%list /\ Forall reading evs.
Proof.
  settle; rewrite <- ?app_assoc;
    first [ exists []; rewrite app_nil_r; split; [reflexivity | constructor]
          | eexists; split; [reflexivity | cbn; repeat constructor] ].
Qed.

(** X12: a click in a row whose record is no longer stored (or whose
    [data-id] is no number) reports that the file was not found, whatever
    the action and the answer, and never calls the delete: the page is
    the one the read alone leaves, the trace gains events of reading only
    (no write transaction, no delete), a rejection is the read's, and the
    store is as before. *)
Theorem click_stale (action data_id : string) (confirmed : bool) (w : World) :
  (forall x, In x (stored w) ->
             key_is (StringToNumber data_id) (id x) = false) ->
  forall res w',
    onButtonClick action data_id confirmed w = (res, w') ->
    stored w' = stored w /\
    (res = Resolved FileNotFound \/ exists e, res = Rejected e) /\
    w' = snd (getAllFiles w) /\
    (forall e, res = Rejected e -> fst (getAllFiles w) = Rejected e) /\
    (exists evs,
       trace w' = (trace w ++ evs)%list /\ Forall reading evs).
Proof.
  intros Habsent res w' Hc.
  pose proof (getAllFiles_reads w) as Hreads.
  unfold onButtonClick, andThen in Hc.
  destruct (getAllFiles w) as [[l|e] w1] eqn:E; cbn [fst snd] in *.
  - apply getAllFiles_resolved in E as (-> & Hst & _).
    destruct (find (fun x => key_is (StringToNumber data_id) (id x))
                (stored w)) as [x|] eqn:F.
    + apply find_some in F as [Hx Hk].
      rewrite (Habsent x Hx) in Hk. discriminate.
    + inversion Hc; subst.
      repeat split; auto. intros e He. discriminate.
  - inversion Hc; subst.
    apply getAllFiles_rejected in E as (Hst & _).
    repeat split; eauto. intros e0 He. now inversion He.
Qed.

(** *** The two views *)

Variable Date_parse : string -> Z.

Lemma renderGallery_shown (w w' : World) (g : Gallery) :
  renderGallery true w = (Resolved g, w') ->
  stored w' = stored w /\ next_key w' = next_key w /\
  g = match stored w with
      | [] => NoFilesYet
      | _ => Thumbs (rev (stored w))
      end.
Proof.
  unfold renderGallery, andThen.
  destruct (getAllFiles w) as [[l|e] w1] eqn:E; [|discriminate].
  apply getAllFiles_resolved in E as (-> & Hst & Hn).
  destruct (stored w); cbn; intros Hg; inversion Hg; subst; auto.
Qed.

Lemma renderDataTable_shown (w w' : World) (t : Table) :
  renderDataTable Date_parse true w = (Resolved t, w') ->
  stored w' = stored w /\ next_key w' = next_key w /\
  t = match Array_sort (by_date Date_parse) (stored w) with
      | [] => NoRows
      | rows => Rows rows
      end.
Proof.
  unfold renderDataTable, andThen.
  destruct (getAllFiles w) as [[l|e] w1] eqn:E; [|discriminate].
  apply getAllFiles_resolved in E as (-> & Hst & Hn).
  destruct (Array_sort (by_date Date_parse) (stored w));
    cbn; intros Ht; inversion Ht; subst; auto.
Qed.

Lemma sorted_snoc (l : list Z) (k : Z) :
  StronglySorted Z.gt l -> Forall (fun x => x > k) l ->
  StronglySorted Z.gt (l ++ [k]).
Proof.
  induction 1 as [|x l Hs IH Hall]; cbn; intros Hk.
  - repeat constructor.
  - inversion Hk; subst. constructor; [auto|].
    apply Forall_app. split; [assumption | repeat constructor; assumption].
Qed.

Lemma sorted_rev (l : list Z) :
  StronglySorted Z.lt l -> StronglySorted Z.gt (rev l).
Proof.
  induction 1 as [|x l Hs IH Hall]; cbn; [constructor|].
  apply sorted_snoc; [assumption|].
  apply Forall_rev. apply Forall_impl with (2 := Hall). intros y Hy. lia.
Qed.

(** X13: where the stored records are in increasing order of id (as on
    every page of a session), a gallery that renders shows the "No files
    yet" paragraph exactly when nothing is stored, and otherwise one
    thumbnail per stored record, the highest id first; the store is as
    before. *)
Theorem gallery_newest_first (w w' : World) (g : Gallery) :
  sorted_ids w ->
  renderGallery true w = (Resolved g, w') ->
  stored w' = stored w /\
  match g with
  | NoGallery => False
  | NoFilesYet => stored w = []
  | Thumbs tiles =>
      tiles <> [] /\ Permutation tiles (stored w) /\
      StronglySorted Z.gt (map id tiles)
  end.
Proof.
  intros Hs Hg. apply renderGallery_shown in Hg as (Hst & _ & ->).
  split; [exact Hst|].
  unfold sorted_ids in Hs.
  destruct (stored w) as [|r l] eqn:El; [reflexivity|].
  repeat split.
  - intros E. apply (f_equal (@rev FileRecord)) in E.
    rewrite rev_involutive in E. discriminate.
  - symmetry. apply Permutation_rev.
  - rewrite map_rev. now apply sorted_rev.
Qed.

Lemma insert_sorted_perm {A} (cmp : A -> A -> Z) (x : A) (l : list A) :
  Permutation (insert_sorted cmp x l) (x :: l).
Proof.
  induction l as [|y l IH]; cbn; [reflexivity|].
  destruct (cmp x y <=? 0); [reflexivity|].
  rewrite IH. apply perm_swap.
Qed.

Lemma Array_sort_perm {A} (cmp : A -> A -> Z) (l : list A) :
  Permutation (Array_sort cmp l) l.
Proof.
  induction l as [|x l IH]; cbn; [reflexivity|].
  rewrite insert_sorted_perm. now constructor.
Qed.

Lemma insert_by_date_sorted (x : FileRecord) (l : list FileRecord) :
  StronglySorted (not_older Date_parse) l ->
  StronglySorted (not_older Date_parse)
    (insert_sorted (by_date Date_parse) x l).
Proof.
  induction 1 as [|y l Hs IH Hall]; cbn [insert_sorted].
  - repeat constructor.
  - unfold by_date at 1.
    destruct (Z.leb_spec
                (Date_parse (uploadedAt (fields y))
                 - Date_parse (uploadedAt (fields x))) 0) as [Hle|Hgt].
    + constructor; [now constructor|].
      constructor; [unfold not_older; lia|].
      apply Forall_impl with (2 := Hall).
      unfold not_older. intros z Hz. lia.
    + constructor; [exact IH|].
      apply Forall_forall. intros z Hz.
      apply (Permutation_in _ (insert_sorted_perm _ x l)) in Hz.
      destruct Hz as [<-|Hz]; [unfold not_older; lia|].
      rewrite Forall_forall in Hall. now apply Hall.
Qed.

Lemma Array_sort_by_date_sorted (l : list FileRecord) :
  StronglySorted (not_older Date_parse) (Array_sort (by_date Date_parse) l).
Proof.
  induction l as [|x l IH]; cbn; [constructor|].
  now apply insert_by_date_sorted.
Qed.

(** X14: a data table that renders shows the "No files yet" row exactly
    when nothing is stored, and otherwise exactly one row per stored
    record, each row's upload time not before that of any row below it;
    the store is as before. *)
Theorem table_latest_first (w w' : World) (t : Table) :
  renderDataTable Date_parse true w = (Resolved t, w') ->
  stored w' = stored w /\
  match t with
  | NoTable => False
  | NoRows => stored w = []
  | Rows rows =>
      rows <> [] /\ Permutation rows (stored w) /\
      StronglySorted (not_older Date_parse) rows
  end.
Proof.
  intros Ht. apply renderDataTable_shown in Ht as (Hst & _ & ->).
  split; [exact Hst|].
  pose proof (Array_sort_perm (by_date Date_parse) (stored w)) as Hp.
  pose proof (Array_sort_by_date_sorted (stored w)) as Hs.
  destruct (Array_sort (by_date Date_parse) (stored w)) as [|r rows].
  - apply Permutation_nil in Hp. now symmetry.
  - repeat split; [discriminate | exact Hp | exact Hs].
Qed.

(** X15: [refreshGalleryAndData] only reads: however it settles, the
    stored records and the key generator are as before; on a page with
    neither container it does not touch the page at all; and when both
    views render they show the same records. *)
Theorem refresh_only_reads (container tbody : bool) (w w' : World)
    (res : Result (Gallery * Table)) :
  refreshGalleryAndData Date_parse container tbody w = (res, w') ->
  stored w' = stored w /\
  next_key w' = next_key w /\
  (container = false -> tbody = false ->
   w' = w /\ res = Resolved (NoGallery, NoTable)) /\
  (container = true -> tbody = true ->
   forall g t,
     res = Resolved (g, t) ->
     match g, t with
     | NoFilesYet, NoRows => stored w = []
     | Thumbs tiles, Rows rows => Permutation tiles rows
     | _, _ => False
     end).
Proof.
  intros Href.
  assert (Hg : forall c w0 r0 w1,
             renderGallery c w0 = (r0, w1) ->
             stored w1 = stored w0 /\ next_key w1 = next_key w0).
  { intros [|] w0 r0 w1; unfold renderGallery, andThen, resolve.
    - destruct (getAllFiles w0) as [[l|e] w2] eqn:E.
      + apply getAllFiles_resolved in E as (_ & Hst & Hn).
        destruct l; intros E'; inversion E'; subst; auto.
      + apply getAllFiles_rejected in E.
        intros E'; inversion E'; subst; auto.
    - intros E'; inversion E'; subst; auto. }
  assert (Ht : forall c w0 r0 w1,
             renderDataTable Date_parse c w0 = (r0, w1) ->
             stored w1 = stored w0 /\ next_key w1 = next_key w0).
  { intros [|] w0 r0 w1; unfold renderDataTable, andThen, resolve.
    - destruct (getAllFiles w0) as [[l|e] w2] eqn:E.
      + apply getAllFiles_resolved in E as (_ & Hst & Hn).
        destruct (Array_sort (by_date Date_parse) l);
          intros E'; inversion E'; subst; auto.
      + apply getAllFiles_rejected in E.
        intros E'; inversion E'; subst; auto.
    - intros E'; inversion E'; subst; auto. }
  unfold refreshGalleryAndData, andThen in Href.
  destruct (renderGallery container w) as [[g0|e] w1] eqn:Eg.
  - destruct (renderDataTable Date_parse tbody w1) as [[t0|e] w2] eqn:Et.
    + cbn in Href. inversion Href; subst.
      destruct (Hg _ _ _ _ Eg) as [Hs1 Hn1].
      destruct (Ht _ _ _ _ Et) as [Hs2 Hn2].
      split; [congruence|]. split; [congruence|]. split.
      * intros -> ->. cbn in Eg, Et. inversion Eg; subst.
        inversion Et; subst. auto.
      * intros -> -> g t E. inversion E; subst.
        apply renderGallery_shown in Eg as (_ & _ & ->).
        apply renderDataTable_shown in Et as (_ & _ & ->).
        rewrite Hs1.
        pose proof (Array_sort_perm (by_date Date_parse) (stored w)) as Hp.
        destruct (stored w) as [|r l] eqn:El.
        -- reflexivity.
        -- destruct (Array_sort (by_date Date_parse) (r :: l)) as [|r' rows].
           ++ apply Permutation_nil in Hp. discriminate.
           ++ rewrite Hp. symmetry. apply Permutation_rev.
    + inversion Href; subst.
      destruct (Hg _ _ _ _ Eg) as [Hs1 Hn1].
      destruct (Ht _ _ _ _ Et) as [Hs2 Hn2].
      split; [congruence|]. split; [congruence|]. split.
      * intros -> ->. cbn in Et. discriminate.
      * intros _ _ g t E. discriminate.
  - inversion Href; subst.
    destruct (Hg _ _ _ _ Eg) as [Hs1 Hn1].
    split; [assumption|]. split; [assumption|]. split.
    + intros -> _. cbn in Eg. discriminate.
    + intros _ _ g t E. discriminate.
Qed.

End StoreFacts.

(** ** Escaping *)

Section EscapeFacts.

Local Open Scope string_scope.

Ltac entity_cases c :=
  unfold Html.entity;
  destruct (Ascii.eqb_spec c "&");
  [|destruct (Ascii.eqb_spec c "<");
    [|destruct (Ascii.eqb_spec c ">");
      [|destruct (Ascii.eqb_spec c Html.quote);
        [|destruct (Ascii.eqb_spec c "'")]]]].

(** On a string the guard of [escapeHtml] changes nothing. *)
Lemma escapeHtml_replace (text : string) : escapeHtml text = Html.replace text.
Proof. unfold escapeHtml. now destruct text. Qed.

Lemma chars_append (a b : string) :
  list_ascii_of_string (a ++ b)
  = (list_ascii_of_string a ++ list_ascii_of_string b)%list.
Proof. induction a as [|c a IH]; cbn; [reflexivity | now rewrite IH]. Qed.

Lemma entity_no_markup (c : ascii) (e : string) :
  Html.entity c = Some e ->
  Forall (fun x => Html.markup x = false) (list_ascii_of_string e).
Proof.
  entity_cases c; intros E; inversion E; subst;
    cbn; repeat constructor.
Qed.

Lemma not_entity_no_markup (c : ascii) :
  Html.entity c = None -> Html.markup c = false.
Proof.
  entity_cases c; intros E; try discriminate.
  unfold Html.markup.
  repeat match goal with
  | Hn : c <> ?k |- _ => apply Ascii.eqb_neq in Hn; rewrite Hn; clear Hn
  end.
  reflexivity.
Qed.

(** X1: the escaped text holds no less-than, greater-than, double quote
    or apostrophe, whatever the text. *)
Theorem escapeHtml_no_markup (text : string) :
  Forall (fun c => Html.markup c = false)
         (list_ascii_of_string (escapeHtml text)).
Proof.
  rewrite escapeHtml_replace.
  induction text as [|c rest IH]; cbn [Html.replace]; [constructor|].
  destruct (Html.entity c) as [e|] eqn:E.
  - rewrite chars_append. apply Forall_app. split; [|exact IH].
    now apply (entity_no_markup c).
  - cbn. constructor; [now apply not_entity_no_markup | exact IH].
Qed.

Lemma replace_nonempty (c : ascii) (rest : string) :
  Html.replace (String c rest) <> EmptyString.
Proof.
  cbn [Html.replace]. entity_cases c; cbn; discriminate.
Qed.

Lemma replace_injective (a : string) :
  forall b : string, Html.replace a = Html.replace b -> a = b.
Proof.
  induction a as [|c1 a IH]; intros [|c2 b].
  - reflexivity.
  - intros E. symmetry in E. now apply replace_nonempty in E.
  - intros E. now apply replace_nonempty in E.
  - cbn [Html.replace].
    entity_cases c1; entity_cases c2; subst; cbn;
      intros E; try discriminate; inversion E; subst;
      try congruence; f_equal; auto.
Qed.

(** X2: distinct texts have distinct escaped texts. *)
Theorem escapeHtml_injective (a b : string) :
  escapeHtml a = escapeHtml b <-> a = b.
Proof.
  rewrite !escapeHtml_replace. split.
  - apply replace_injective.
  - intros ->. reflexivity.
Qed.

(** X3: escaping a concatenation is concatenating the escaped parts. *)
Theorem escapeHtml_append (a b : string) :
  escapeHtml (a ++ b) = escapeHtml a ++ escapeHtml b.
Proof.
  rewrite !escapeHtml_replace.
  induction a as [|c a IH]; cbn [append Html.replace]; [reflexivity|].
  rewrite IH. destruct (Html.entity c) as [e|]; [|reflexivity].
  now rewrite append_assoc.
Qed.

Lemma replace_length (text : string) :
  (String.length text <= String.length (Html.replace text))%nat.
Proof.
  induction text as [|c rest IH]; cbn [Html.replace]; [apply le_n|].
  entity_cases c; rewrite ?length_append; cbn in *; lia.
Qed.

Lemma plain_replace (text : string) :
  Html.plain text = true -> Html.replace text = text.
Proof.
  induction text as [|c rest IH]; cbn [Html.plain Html.replace];
    [reflexivity|].
  destruct (Html.entity c); [discriminate|].
  intros Hp. now rewrite IH.
Qed.

Lemma replace_fixed_plain (text : string) :
  Html.replace text = text -> Html.plain text = true.
Proof.
  induction text as [|c rest IH]; cbn [Html.plain Html.replace];
    [reflexivity|].
  pose proof (replace_length rest) as Hlen.
  revert Hlen. entity_cases c; intros Hlen E;
    try (apply (f_equal String.length) in E;
         rewrite length_append in E; cbn in E; lia).
  inversion E as [E']. rewrite E'. now apply IH.
Qed.

Lemma plain_of_replace (text : string) :
  Html.plain (Html.replace text) = Html.plain text.
Proof.
  induction text as [|c rest IH]; cbn [Html.plain Html.replace];
    [reflexivity|].
  destruct (Html.entity c) as [e|] eqn:E.
  - revert E. entity_cases c; intros E; inversion E; reflexivity.
  - cbn [Html.plain]. now rewrite E.
Qed.

(** X4: escaping never shortens a text; it leaves a text as it is exactly
    when the text has none of the five characters, and escaping twice
    gives the same as escaping once for those texts only. *)
Theorem escapeHtml_fixed_iff_plain (text : string) :
  (String.length text <= String.length (escapeHtml text))%nat /\
  (escapeHtml text = text <-> Html.plain text = true) /\
  (escapeHtml (escapeHtml text) = escapeHtml text <-> Html.plain text = true).
Proof.
  rewrite !escapeHtml_replace. split; [apply replace_length|]. split.
  - split; [apply replace_fixed_plain | apply plain_replace].
  - split.
    + intros E. apply replace_fixed_plain in E.
      now rewrite plain_of_replace in E.
    + intros Hp. now rewrite (plain_replace text Hp), (plain_replace text Hp).
Qed.

End EscapeFacts.

(** * Concrete sessions *)

Section Sessions.

Local Open Scope string_scope.
Local Open Scope Z_scope.

Lemma steady_reliable : @reliable steady.
Proof. intros n. reflexivity. Qed.

Lemma gallery_ok : world_ok gallery.
Proof.
  split.
  - intros _. discriminate.
  - intros r [<-|[<-|[]]]; reflexivity.
Qed.

(** The steady engine reads the decimal string of every integer as that
    integer. *)
Lemma steady_reads_decimal (n : Z) :
  @StringToNumber steady (ToString n) = Finite (inject_Z n).
Proof.
  assert (Hd : NilZero.int_of_string (NilZero.string_of_int (Z.to_int n))
               = Some (Z.to_int n)).
  { apply NilZero.isi; intros E;
      pose proof (DecimalZ.of_to n) as Hn; rewrite E in Hn;
      cbn in Hn; subst n; discriminate E. }
  unfold ToString. cbn [StringToNumber steady].
  now rewrite Hd, DecimalZ.of_to.
Qed.

(** The spec's first scenario: "a.txt" is inserted, listed alone, deleted
    through its [data-id], and the list is empty. *)
Example scenario_insert_delete :
  fst (@run steady
         [HandleFiles [sample_text]; GetAllFiles;
          DeleteFile (JString "1"); GetAllFiles]
         opened_page)
  = [Done (Resolved tt);
     GotFiles
       (Resolved
          [{| id := 1;
              fields := {| name := "a.txt"; type := "text/plain"; size := 3;
                           uploadedAt := "2024-01-01T00:00:00.2Z";
                           dataURL := "data:text/plain;base64,YWJj" |} |}]);
     Done (Resolved tt);
     GotFiles (Resolved [])].
Proof. reflexivity. Qed.

(** The spec's second scenario: of two files the first is deleted and the
    second is listed alone. *)
Example scenario_delete_first :
  fst (@getAllFiles steady
         (@finish steady [DeleteFile (JNumber (Finite (inject_Z 1)))] gallery))
  = Resolved
      [{| id := 2;
          fields := {| name := "blob"; type := ""; size := 2;
                       uploadedAt := "2024-01-01T00:00:00.4Z";
                       dataURL := "data:;base64,AP8=" |} |}].
Proof. reflexivity. Qed.



(** Witness of C3 on the gallery: no record has id 7. *)
Lemma delete_absent_witness :
  (forall res w',
     @deleteFile steady (JString "7") gallery = (res, w') ->
     stored w' = stored gallery) /\
  exists w', @deleteFile steady (JString "7") gallery = (Resolved tt, w').
Proof.
  destruct (@delete_absent steady (JString "7") 7 gallery) as [Hsame Hok].
  - reflexivity.
  - intros r [<-|[<-|[]]]; discriminate.
  - split; [exact Hsame|].
    apply Hok; [exact steady_reliable | exact gallery_ok].
Defined.


(** Witness of C5, amended, at "a.txt". *)
Lemma payload_round_trip_witness :
  DataURL.has_comma (file_type sample_text) = false /\
  forall l w2,
    @getAllFiles steady
       (snd (@addFileRecord steady sample_text "data:text/plain;base64,YWJj"
               (snd (@fileToDataURL steady sample_text opened_page))))
    = (Resolved l, w2) ->
    exists r, In r l /\ id r = 1 /\
              type (fields r) = file_type sample_text /\
              (file_type sample_text <> EmptyString ->
               DataURL.decode (dataURL (fields r))
               = Some (file_type sample_text, file_bytes sample_text)) /\
              (DataURL.has_comma (@untyped_media steady) = false ->
               option_map snd (DataURL.decode (dataURL (fields r)))
               = Some (file_bytes sample_text)).
Proof.
  split; [reflexivity|].
  apply (@payload_round_trip steady sample_text opened_page
           (snd (@fileToDataURL steady sample_text opened_page))
           (snd (@addFileRecord steady sample_text
                   "data:text/plain;base64,YWJj"
                   (snd (@fileToDataURL steady sample_text opened_page))))
           "data:text/plain;base64,YWJj" 1).
  - reflexivity.
  - reflexivity.
  - reflexivity.
Defined.

(** Counterexample of C5 as stated.  The file without a type is stored
    with the empty type.  Where the engine writes no media type, its
    payload decodes to the default media type; where the engine writes
    application/octet-stream, to that: never to the empty type supplied.
    And the payload of a type with a comma does not decode at all. *)
Lemma payload_round_trip_counterexample :
  map (fun r => (type (fields r), dataURL (fields r),
                 DataURL.decode (dataURL (fields r))))
      (stored (snd (@handleFiles steady [sample_blob] opened_page)))
  = [("", "data:;base64,AP8=",
      Some ("text/plain;charset=US-ASCII", file_bytes sample_blob))] /\
  map (fun r => (type (fields r), dataURL (fields r),
                 DataURL.decode (dataURL (fields r))))
      (stored
         (snd (@handleFiles steady_octet_stream [sample_blob] opened_page)))
  = [("", "data:application/octet-stream;base64,AP8=",
      Some ("application/octet-stream", file_bytes sample_blob))] /\
  DataURL.decode (DataURL.readAsDataURL "" sample_blob)
  <> Some (file_type sample_blob, file_bytes sample_blob) /\
  DataURL.decode
    (DataURL.readAsDataURL ""
       {| file_name := "x"; file_type := "text/x,y"; file_bytes := [] |})
  = None.
Proof.
  split; [reflexivity|].
  split; [reflexivity|].
  split; [discriminate | reflexivity].
Qed.

(** Witness of C6 on the gallery: record 2 stays as it is while record 1 is
    deleted and another file is added. *)
Lemma records_immutable_witness :
  In {| id := 2;
        fields := {| name := "blob"; type := ""; size := 2;
                     uploadedAt := "2024-01-01T00:00:00.4Z";
                     dataURL := "data:;base64,AP8=" |} |} (stored gallery) /\
  forall l w',
    @getAllFiles steady
       (@finish steady
          [DeleteFile (JString "1"); HandleFiles [sample_text]] gallery)
    = (Resolved l, w') ->
    In {| id := 2;
          fields := {| name := "blob"; type := ""; size := 2;
                       uploadedAt := "2024-01-01T00:00:00.4Z";
                       dataURL := "data:;base64,AP8=" |} |} l.
Proof.
  assert (Hin : In {| id := 2;
                      fields := {| name := "blob"; type := ""; size := 2;
                                   uploadedAt := "2024-01-01T00:00:00.4Z";
                                   dataURL := "data:;base64,AP8=" |} |}
                   (stored gallery))
    by (right; left; reflexivity).
  split; [exact Hin|].
  intros l w' Hl.
  refine (proj1 (proj2 (proj2 (@records_immutable steady _ gallery Hin))
                   [DeleteFile (JString "1"); HandleFiles [sample_text]]
                   _ l w' Hl)).
  intros op [<-|[<-|[]]]; reflexivity.
Defined.

(** Witness of C7 from start-up: the connection 0 that [openDB] opened first
    serves every later session. *)
Lemma openDB_idempotent_witness :
  @openDB steady initial = (Resolved 0%nat, opened_page) /\
  forall ops : list Op,
    @openDB steady (@finish steady ops opened_page)
    = (Resolved 0%nat, @finish steady ops opened_page) /\
    opened (@finish steady ops opened_page) = opened opened_page /\
    exists evs,
      trace (@finish steady ops opened_page)
      = (trace opened_page ++ evs)%list /\
      Forall (on_handle 0%nat) evs.
Proof.
  assert (E : @openDB steady initial = (Resolved 0%nat, opened_page))
    by reflexivity.
  split; [exact E|].
  exact (@openDB_idempotent steady initial opened_page 0%nat E).
Defined.




Lemma gallery_sorted : sorted_ids gallery.
Proof. unfold sorted_ids. cbn. repeat constructor. Qed.

Lemma gallery_unique : unique_ids gallery.
Proof. apply increasing_NoDup. exact gallery_sorted. Qed.


(** Witness of X7: with the status element one more upload into the
    gallery resolves and stores a third record; without it the batch is
    rejected and the gallery is as before. *)
Lemma handleFiles_resolves_witness :
  (exists w' news,
     @handleFiles_status steady true [sample_text] gallery
     = (Resolved tt, w') /\
     stored w' = (stored gallery ++ news)%list /\
     map essence news
     = [("a.txt", "text/plain", 3, "data:text/plain;base64,YWJj")]) /\
  @handleFiles_status steady false [sample_text] gallery
  = (Rejected TypeError, gallery).
Proof.
  destruct (@handleFiles_resolves steady true [sample_text] gallery
              steady_reliable gallery_ok) as [Hyes _].
  { vm_compute. discriminate. }
  destruct (@handleFiles_resolves steady false [sample_text] gallery
              steady_reliable gallery_ok) as [_ Hno].
  { vm_compute. discriminate. }
  split; [exact (Hyes (or_introl eq_refl))|].
  apply Hno; [reflexivity | discriminate].
Defined.

(** Witness of X8: the engine fails the request of an insert into the
    opened page; the key generator stays at 1. *)
Lemma rejected_insert_uses_no_id_witness :
  @addFileRecord (failing_at 1) sample_text "data:,a" opened_page
  = (Rejected RequestFailure,
     snd (@addFileRecord (failing_at 1) sample_text "data:,a" opened_page)) /\
  next_key
    (snd (@addFileRecord (failing_at 1) sample_text "data:,a" opened_page))
  = next_key opened_page.
Proof.
  assert (E : @addFileRecord (failing_at 1) sample_text "data:,a" opened_page
              = (Rejected RequestFailure,
                 snd (@addFileRecord (failing_at 1) sample_text "data:,a"
                        opened_page))) by reflexivity.
  split; [exact E|].
  exact (proj1 (proj2 (@rejected_insert_uses_no_id (failing_at 1)
                         _ _ _ _ _ E))).
Defined.

(** Witness of X9: the first open fails, the second succeeds. *)
Lemma open_failure_not_cached_witness :
  @getAllFiles (failing_at 0) initial
  = (Rejected OpenFailure, step [] initial) /\
  exists w',
    @openDB (failing_at 0) (step [] initial) = (Resolved 0%nat, w') /\
    db w' = Some 0%nat.
Proof.
  destruct (@open_failure_not_cached (failing_at 0) initial eq_refl eq_refl)
    as (_ & _ & Hlist & _ & _ & _ & _ & Hretry).
  split; [exact Hlist | exact (Hretry eq_refl)].
Defined.


(** Witness of X11: Download on the row of the file without type. *)
Lemma click_download_witness :
  In blob_record (stored gallery) /\
  forall res w',
    @onButtonClick steady "download" "2" false gallery = (res, w') ->
    stored w' = stored gallery /\
    (res = Resolved (Download "data:;base64,AP8=" "blob")
     \/ exists e, res = Rejected e).
Proof.
  assert (Hin : In blob_record (stored gallery))
    by (right; left; reflexivity).
  split; [exact Hin|].
  exact (@click_download steady blob_record gallery false eq_refl
           gallery_unique Hin).
Defined.

(** Witness of X12: Delete in a row with [data-id] 7, which the gallery
    does not store: the file is not found and only the read happened. *)
Lemma click_stale_witness :
  (forall x, In x (stored gallery) ->
             key_is (@StringToNumber steady "7") (id x) = false) /\
  @onButtonClick steady "delete" "7" true gallery
  = (Resolved FileNotFound, snd (@getAllFiles steady gallery)) /\
  stored (snd (@getAllFiles steady gallery)) = stored gallery /\
  exists evs,
    trace (snd (@getAllFiles steady gallery)) = (trace gallery ++ evs)%list /\
    Forall reading evs.
Proof.
  assert (Habsent : forall x, In x (stored gallery) ->
                      key_is (@StringToNumber steady "7") (id x) = false)
    by (intros x [<-|[<-|[]]]; reflexivity).
  assert (E : @onButtonClick steady "delete" "7" true gallery
              = (Resolved FileNotFound, snd (@getAllFiles steady gallery)))
    by reflexivity.
  destruct (@click_stale steady "delete" "7" true gallery Habsent _ _ E)
    as (Hst & _ & _ & _ & Hevs).
  split; [exact Habsent|].
  split; [exact E|].
  split; [exact Hst | exact Hevs].
Defined.

(** Witness of X13: the gallery shows the file without type before
    "a.txt". *)
Lemma gallery_newest_first_witness :
  @renderGallery steady true gallery
  = (Resolved (Thumbs [blob_record; text_record]),
     snd (@renderGallery steady true gallery)) /\
  StronglySorted Z.gt (map id [blob_record; text_record]).
Proof.
  assert (E : @renderGallery steady true gallery
              = (Resolved (Thumbs [blob_record; text_record]),
                 snd (@renderGallery steady true gallery))) by reflexivity.
  split; [exact E|].
  exact (proj2 (proj2 (proj2 (@gallery_newest_first steady gallery _ _
                                gallery_sorted E)))).
Defined.

(** Witness of X14: the table of the gallery, latest upload first. *)
Lemma table_latest_first_witness :
  @renderDataTable steady steady_Date_parse true gallery
  = (Resolved (Rows [blob_record; text_record]),
     snd (@renderDataTable steady steady_Date_parse true gallery)) /\
  StronglySorted (not_older steady_Date_parse) [blob_record; text_record].
Proof.
  assert (E : @renderDataTable steady steady_Date_parse true gallery
              = (Resolved (Rows [blob_record; text_record]),
                 snd (@renderDataTable steady steady_Date_parse true gallery)))
    by reflexivity.
  split; [exact E|].
  exact (proj2 (proj2 (proj2 (@table_latest_first steady steady_Date_parse
                                gallery _ _ E)))).
Defined.

(** Witness of X15: refreshing the gallery page leaves the store alone. *)
Lemma refresh_only_reads_witness :
  fst (@refreshGalleryAndData steady steady_Date_parse true true gallery)
  = Resolved (Thumbs [blob_record; text_record],
              Rows [blob_record; text_record]) /\
  stored
    (snd (@refreshGalleryAndData steady steady_Date_parse true true gallery))
  = stored gallery.
Proof.
  split; [reflexivity|].
  apply (@refresh_only_reads steady steady_Date_parse true true gallery _
           (fst (@refreshGalleryAndData steady steady_Date_parse true true
                   gallery))).
  reflexivity.
Defined.

End Sessions.
